(** * Agreement persistence of the agreement bot (agreementbot/persistence.go)

    A shallow embedding of the bolt-backed persistence layer for [Agreement]
    records, and the properties its design relies on: duplicate protection on
    creation, the whitelist merge on update, the conjunction of filters in a
    scan, the exactly-one-match lookup and the tolerant delete.

    Modelling conventions.
    - A Go [string] and a [[]byte] are both byte sequences; they are modelled
      by [string] (a list of 8-bit [ascii]), and the conversion [[]byte(s)] is
      the identity.
    - A [uint64] is a [Z] in [0, 2^64); the conversion from the [int64] that
      [time.Now().Unix()] returns is written out as [uint64].  The clock is an
      input: every function that reads it takes the reading [now].
    - A [*Agreement] is an [option Agreement] ([None] is the nil pointer) and
      an [error] is an [option Error] ([None] is nil).
    - A bolt database is a finite map from bucket names to buckets, a bucket a
      finite map from keys to values.  The database is open and its file can
      be written: [Begin], [Commit] and [Rollback] do not fail.  Buckets hold
      plain values only (nothing in this package nests buckets).
    - [encoding/json] is not part of this package: marshalling and
      unmarshalling are the operations of two interfaces, [Marshaler] and
      [Unmarshaler], over which the development is parametric.
    - [glog] output is returned by every operation as the list of entries it
      emitted, in order; an entry records the message and its arguments.
    - [singleAgreementUpdate] is private to the package and the only
      transformation passed to it returns the address of its own parameter, so
      a transformation is a total function [Agreement -> Agreement]. *)

From Stdlib Require Import ZArith String Ascii DecimalString.
From stdpp Require Import gmap strings list sorting.

Local Open Scope string_scope.
Local Open Scope Z_scope.
Local Open Scope list_scope.

(** ** Data model *)

Abbreviation bytes := string (only parsing).

Definition uint64 (x : Z) : Z := x mod 2 ^ 64.

Definition AGREEMENTS : string := "agreements".

Record Agreement := mkAgreement {
  CurrentAgreementId : string;            (* unique *)
  AgreementProtocol : string;             (* immutable after construction *)
  AgreementInceptionTime : Z;             (* immutable after construction *)
  AgreementCreationTime : Z;              (* device responds affirmatively to proposal *)
  Proposal : string;
  DataVerificationURL : string;
  DisableDataVerificationChecks : bool
}.

#[global] Instance Agreement_eq_dec : EqDecision Agreement.
Proof. solve_decision. Defined.

(** ** Logging and results *)

(** The messages of the package, with the arguments they are formatted with. *)
Inductive Message :=
| RecordDoesNotExist (pk : string)          (* DeleteAgreement *)
| ErrorDeserializingAgreement               (* DeleteAgreement *)
| DeletingRecordWithAgreementId             (* DeleteAgreement *)
| UnableToDeserializeRecord (v : bytes)     (* FindAgreements *)
| DemarshalledAgreement (a : Agreement)     (* FindAgreements *)
| SucceededUpdating (mod' : Agreement)       (* persistUpdatedAgreement *)
| SucceededWriting (pk bucket : string).    (* PersistNew *)

Inductive LogEntry :=
| Errorf (m : Message)                      (* glog.Errorf *)
| Infof (level : nat) (m : Message).        (* glog.V(level).Infof *)

(** What a call leaves behind: the value it returns, the database after it
    and the log entries it emitted. *)
Record Ret (A : Type) := mkRet {
  val : A;
  store : gmap string (gmap string string);
  logged : list LogEntry
}.
Arguments mkRet {A} _ _ _.
Arguments val {A} _.
Arguments store {A} _.
Arguments logged {A} _.

(** ** The bolt store *)

Module bolt.

Inductive error :=
| ErrBucketNameRequired
| ErrKeyRequired
| ErrKeyTooLarge
| ErrValueTooLarge.

Definition MaxKeySize : Z := 32768.
Definition MaxValueSize : Z := 2 ^ 31 - 2.

(** The root of a database (and of a transaction on it): buckets by name. *)
Abbreviation Bucket := (gmap string string) (only parsing).
Abbreviation DB := (gmap string (gmap string string)) (only parsing).

(** [tx.Bucket(name)]: nil when the bucket does not exist. *)
Definition Bucket_ (tx : DB) (name : string) : option Bucket := tx !! name.

(** [tx.CreateBucketIfNotExists(name)]: the transaction with the bucket in
    it; an existing bucket is left as it is. *)
Definition CreateBucketIfNotExists (tx : DB) (name : string) : error + DB :=
  if decide (name = "") then inl ErrBucketNameRequired
  else match tx !! name with
       | Some _ => inr tx
       | None => inr (<[name := ∅]> tx)
       end.

(** [b.Get(key)] on the bucket [name] of [tx]: nil when the key is absent. *)
Definition Get (tx : DB) (name : string) (key : bytes) : option bytes :=
  tx !! name ≫= λ b, b !! key.

(** [b.Put(key, value)] on the bucket [name] of [tx]. *)
Definition Put (tx : DB) (name : string) (key value : bytes) : error + DB :=
  if decide (key = "") then inl ErrKeyRequired
  else if MaxKeySize <? Z.of_nat (String.length key) then inl ErrKeyTooLarge
  else if MaxValueSize <? Z.of_nat (String.length value) then inl ErrValueTooLarge
  else inr (alter (insert key value) name tx).

(** [b.Delete(key)] on the bucket [name] of [tx]: removing a key that is
    absent is not an error, and in a writable transaction removing a plain
    value never fails. *)
Definition Delete (tx : DB) (name : string) (key : bytes) : DB :=
  alter (delete key) name tx.

(** The pairs [b.ForEach] visits, in the order it visits them: ascending
    byte order of the keys. *)
Definition ForEach (b : Bucket) : list (bytes * bytes) :=
  merge_sort (λ x y, String.le x.1 y.1) (map_to_list b).

(** [db.Update(fn)]: the transaction is committed when [fn] returns nil and
    rolled back when it returns an error, which [Update] returns. *)
Definition Update {E : Type} (db : DB) (fn : DB → Ret (option E)) : Ret (option E) :=
  let r := fn db in
  match val r with
  | None => r
  | Some err => mkRet (Some err) db (logged r)
  end.

(** [db.View(fn)]: a read-only transaction; [A] is what [fn] leaves in the
    variables it captures. *)
Definition View {A E : Type} (db : DB) (fn : DB → Ret (A * option E)) : Ret (A * option E) :=
  let r := fn db in mkRet (val r) db (logged r).

End bolt.

(** ** Errors of the package, one constructor per message *)

Inductive Error :=
| IllegalInput                                   (* agreement *)
| ExpectedOnlyOneRecord (agreementid : string) (agreements : list Agreement)
| UnableToLocateAgreement (agreementid : string) (* singleAgreementUpdate *)
| NoAgreementToUpdate (agreementid : string)     (* persistUpdatedAgreement *)
| FailedToUnmarshal (current : bytes)            (* persistUpdatedAgreement *)
| FailedToSerialize (mod' : Agreement)           (* persistUpdatedAgreement *)
| FailedToWriteRecord (agreementid : string)     (* persistUpdatedAgreement *)
| MissingRequiredArgPk                           (* DeleteAgreement *)
| UnknownBucket (bucket : string)                (* DeleteAgreement *)
| MissingRequiredArgs                            (* PersistNew *)
| AlreadyContainsRecord (bucket pk : string)     (* PersistNew *)
| UnableToSerializeRecord                        (* PersistNew *)
| UnableToWriteRecord (bucket pk : string)       (* PersistNew *)
| BoltError (err : bolt.error).

(** ** encoding/json, as two interfaces *)

Class Marshaler (T : Type) := json_Marshal : T → option bytes.
Class Unmarshaler (T : Type) := json_Unmarshal : bytes → option T.

(** A record survives being written and read back. *)
Definition RoundTrips `{Marshaler T, Unmarshaler T} (x : T) : Prop :=
  ∃ serialized, json_Marshal x = Some serialized ∧ json_Unmarshal serialized = Some x.

(** ** The persistence operations *)

(** [PersistNew]: create-if-absent of any record that can be marshalled. *)
Definition PersistNew {T : Type} `{!Marshaler T}
    (db : bolt.DB) (pk bucket : string) (record : T) : Ret (option Error) :=
  if bool_decide (pk = "") || bool_decide (bucket = "") then
    mkRet (Some MissingRequiredArgs) db []
  else
    bolt.Update db (λ tx,
      match bolt.CreateBucketIfNotExists tx bucket with
      | inl err => mkRet (Some (BoltError err)) tx []
      | inr tx =>
        match bolt.Get tx bucket pk with
        | Some existing => mkRet (Some (AlreadyContainsRecord bucket pk)) tx []
        | None =>
          match json_Marshal record with
          | None => mkRet (Some UnableToSerializeRecord) tx []
          | Some serialized =>
            match bolt.Put tx bucket pk serialized with
            | inl _ => mkRet (Some (UnableToWriteRecord bucket pk)) tx []
            | inr tx => mkRet None tx [Infof 2 (SucceededWriting pk bucket)]
            end
          end
        end
      end).

Definition AFilter : Type := Agreement → bool.

Definition IdAFilter (id : string) : AFilter :=
  λ a, bool_decide (CurrentAgreementId a = id).

Section persistence.
Context `{!Marshaler Agreement, !Unmarshaler Agreement}.

(** The private factory: exactly one of the record and the error is set. *)
Definition agreement (agreementid agreementProto : string) (now : Z) : Error + Agreement :=
  if bool_decide (agreementid = "") || bool_decide (agreementProto = "") then
    inl IllegalInput
  else
    inr {| CurrentAgreementId := agreementid;
           AgreementProtocol := agreementProto;
           AgreementInceptionTime := uint64 now;
           AgreementCreationTime := 0;
           Proposal := "";
           DataVerificationURL := "";
           DisableDataVerificationChecks := false |}.

Definition AgreementAttempt (db : bolt.DB) (agreementid agreementProto : string)
    (now : Z) : Ret (option Error) :=
  match agreement agreementid agreementProto now with
  | inl err => mkRet (Some err) db []
  | inr a => PersistNew db (CurrentAgreementId a) AGREEMENTS a
  end.

(** The loop over the filters of [FindAgreements]: every filter is called,
    and one that rejects the record sets [exclude]. *)
Definition excluded (filters : list AFilter) (a : Agreement) : bool :=
  fold_left (λ exclude filterFn, if negb (filterFn a) then true else exclude)
            filters false.

(** The function [FindAgreements] passes to [ForEach], on the captured
    slice [agreements] and the log so far. *)
Definition visit (filters : list AFilter)
    (acc : list Agreement * list LogEntry) (kv : bytes * bytes)
    : list Agreement * list LogEntry :=
  let '(agreements, out) := acc in
  match json_Unmarshal kv.2 with
  | None => (agreements, out ++ [Errorf (UnableToDeserializeRecord kv.2)])
  | Some a =>
    (if negb (excluded filters a) then agreements ++ [a] else agreements,
     out ++ [Infof 5 (DemarshalledAgreement a)])
  end.

Definition FindAgreements (db : bolt.DB) (filters : list AFilter)
    : Ret (list Agreement * option Error) :=
  let r := bolt.View db (λ tx,
    match bolt.Bucket_ tx AGREEMENTS with
    | Some b =>
      let '(agreements, out) := fold_left (visit filters) (bolt.ForEach b) ([], []) in
      mkRet (agreements, None) tx out
    | None => mkRet ([], None) tx []
    end) in
  match (val r).2 with
  | Some readErr => mkRet ([], Some readErr) (store r) (logged r)
  | None => mkRet ((val r).1, None) (store r) (logged r)
  end.

(** No error on not found, only nil. *)
Definition FindSingleAgreementByAgreementId (db : bolt.DB) (agreementid : string)
    : Ret (option Agreement * option Error) :=
  let filters := [] ++ [IdAFilter agreementid] in
  let r := FindAgreements db filters in
  match val r with
  | (_, Some err) => mkRet (None, Some err) (store r) (logged r)
  | (agreements, None) =>
    if (1 <? Z.of_nat (length agreements)) then
      mkRet (None, Some (ExpectedOnlyOneRecord agreementid agreements)) (store r) (logged r)
    else
      match agreements with
      | [] => mkRet (None, None) (store r) (logged r)
      | a :: _ => mkRet (Some a, None) (store r) (logged r)
      end
  end.

(** The four assignments of [persistUpdatedAgreement]: the fields that are
    expected to be updateable are taken from [update], the others stay. *)
Definition whole_member_replacements (mod' update : Agreement) : Agreement :=
  {| CurrentAgreementId := CurrentAgreementId mod';
     AgreementProtocol := AgreementProtocol mod';
     AgreementInceptionTime := AgreementInceptionTime mod';
     AgreementCreationTime := AgreementCreationTime update;
     Proposal := Proposal update;
     DataVerificationURL := DataVerificationURL update;
     DisableDataVerificationChecks := DisableDataVerificationChecks update |}.

(** Whole-member replacement of the values that are legal to change during
    the course of an agreement's life. *)
Definition persistUpdatedAgreement (db : bolt.DB) (agreementid : string)
    (update : Agreement) : Ret (option Error) :=
  bolt.Update db (λ tx,
    match bolt.CreateBucketIfNotExists tx AGREEMENTS with
    | inl err => mkRet (Some (BoltError err)) tx []
    | inr tx =>
      match bolt.Get tx AGREEMENTS agreementid with
      | None => mkRet (Some (NoAgreementToUpdate agreementid)) tx []
      | Some current =>
        match json_Unmarshal current with
        | None => mkRet (Some (FailedToUnmarshal current)) tx []
        | Some mod' =>
          let mod' := whole_member_replacements mod' update in
          match json_Marshal mod' with
          | None => mkRet (Some (FailedToSerialize mod')) tx []
          | Some serialized =>
            match bolt.Put tx AGREEMENTS agreementid serialized with
            | inl _ => mkRet (Some (FailedToWriteRecord agreementid)) tx []
            | inr tx => mkRet None tx [Infof 2 (SucceededUpdating mod')]
            end
          end
        end
      end
    end).

Definition singleAgreementUpdate (db : bolt.DB) (agreementid : string)
    (fn : Agreement → Agreement) : Ret (option Agreement * option Error) :=
  let r := FindSingleAgreementByAgreementId db agreementid in
  match val r with
  | (_, Some err) => mkRet (None, Some err) (store r) (logged r)
  | (None, None) =>
    mkRet (None, Some (UnableToLocateAgreement agreementid)) (store r) (logged r)
  | (Some a, None) =>
    let updated := fn a in
    let w := persistUpdatedAgreement (store r) agreementid updated in
    mkRet (Some updated, val w) (store w) (logged r ++ logged w)
  end.

(** The transformation [AgreementMade] passes to [singleAgreementUpdate]: it
    assigns four fields of its parameter [a], a copy, and returns its address. *)
Definition AgreementMade_fn (proposal url : string) (checks : bool) (now : Z)
    (a : Agreement) : Agreement :=
  {| CurrentAgreementId := CurrentAgreementId a;
     AgreementProtocol := AgreementProtocol a;
     AgreementInceptionTime := AgreementInceptionTime a;
     AgreementCreationTime := uint64 now;
     Proposal := proposal;
     DataVerificationURL := url;
     DisableDataVerificationChecks := checks |}.

Definition AgreementMade (db : bolt.DB) (agreementid proposal url : string)
    (checks : bool) (now : Z) : Ret (option Agreement * option Error) :=
  let r := singleAgreementUpdate db agreementid (AgreementMade_fn proposal url checks now) in
  match val r with
  | (_, Some err) => mkRet (None, Some err) (store r) (logged r)
  | (a, None) => mkRet (a, None) (store r) (logged r)
  end.

Definition AgreementUpdate (db : bolt.DB) (agreementid proposal url : string)
    (checks : bool) (now : Z) : Ret (option Agreement * option Error) :=
  AgreementMade db agreementid proposal url checks now.

Definition DeleteAgreement (db : bolt.DB) (pk : string) : Ret (option Error) :=
  if bool_decide (pk = "") then mkRet (Some MissingRequiredArgPk) db []
  else
    bolt.Update db (λ tx,
      match bolt.Bucket_ tx AGREEMENTS with
      | None => mkRet (Some (UnknownBucket AGREEMENTS)) tx []
      | Some b =>
        match bolt.Get tx AGREEMENTS pk with
        | None => mkRet None tx [Errorf (RecordDoesNotExist pk)]
        | Some existing =>
          let out :=
            match json_Unmarshal existing with
            | None => [Errorf ErrorDeserializingAgreement]
            | Some record =>
              if bool_decide (CurrentAgreementId record ≠ "")
              then [Errorf DeletingRecordWithAgreementId] else []
            end in
          mkRet None (bolt.Delete tx AGREEMENTS pk) out
        end
      end).

(** *** Views of the store used in the statements *)

(** The records of the agreements bucket that can be decoded, in the order a
    scan meets them. *)
Definition stored_agreements (db : bolt.DB) : list Agreement :=
  match bolt.Bucket_ db AGREEMENTS with
  | Some b => omap (λ kv, json_Unmarshal kv.2) (bolt.ForEach b)
  | None => []
  end.

(** The record stored under a key, decoded. *)
Definition stored_agreement (db : bolt.DB) (key : string) : option Agreement :=
  bolt.Get db AGREEMENTS key ≫= json_Unmarshal.

(** Every record that can be decoded is stored under its own agreement id:
    what the store looks like when agreements are written by this package
    only. *)
Definition store_consistent (db : bolt.DB) : Prop :=
  ∀ key v a, bolt.Get db AGREEMENTS key = Some v → json_Unmarshal v = Some a →
             CurrentAgreementId a = key.

(** The log a scan leaves for the pairs it visits. *)
Definition scan_log (l : list (bytes * bytes)) : list LogEntry :=
  (λ kv, match json_Unmarshal kv.2 with
         | None => Errorf (UnableToDeserializeRecord kv.2)
         | Some a => Infof 5 (DemarshalledAgreement a)
         end) <$> l.

End persistence.

(** ** A line-oriented codec

    A small implementation of the two interfaces: one field per line, numbers
    in decimal.  It is used to run the operations on concrete stores. *)

Module LineCodec.

Definition LF : ascii := "010"%char.

Definition number (z : Z) : string := NilEmpty.string_of_int (Z.to_int z).

Definition marshal (a : Agreement) : option bytes :=
  Some (String.concat (String LF "")
          [CurrentAgreementId a; AgreementProtocol a;
           number (AgreementInceptionTime a); number (AgreementCreationTime a);
           Proposal a; DataVerificationURL a;
           if DisableDataVerificationChecks a then "true" else "false"]).

Fixpoint lines (cur s : string) : list string :=
  match s with
  | EmptyString => [String.rev cur]
  | String c s' =>
    if Ascii.eqb c LF then String.rev cur :: lines "" s' else lines (String c cur) s'
  end.

Definition parse_number (s : string) : option Z :=
  Z.of_int <$> NilEmpty.int_of_string s.

Definition parse_bool (s : string) : option bool :=
  if String.eqb s "true" then Some true
  else if String.eqb s "false" then Some false else None.

Definition unmarshal (v : bytes) : option Agreement :=
  match lines "" v with
  | [id; proto; inception; creation; proposal; url; checks] =>
    i ← parse_number inception;
    c ← parse_number creation;
    b ← parse_bool checks;
    Some (mkAgreement id proto i c proposal url b)
  | _ => None
  end.

Definition Marshal_Agreement : Marshaler Agreement := marshal.
Definition Unmarshal_Agreement : Unmarshaler Agreement := unmarshal.

End LineCodec.

(** ** The line codec with the strings of encoding/json

    [encoding/json] writes a string as text: a byte that does not belong to a
    valid UTF-8 encoding is written as the replacement character U+FFFD, and
    is read back as the three bytes of that character.  This codec is the
    line codec with that treatment of the string fields. *)

Module Utf8Codec.

Definition in_range (lo hi : N) (c : ascii) : bool :=
  ((lo <=? N_of_ascii c) && (N_of_ascii c <=? hi))%N.

(** The bytes EF BF BD of U+FFFD. *)
Definition RuneError : string := String "239" (String "191" (String "189" "")).

(** The first [n] bytes of a text are continuation bytes. *)
Fixpoint continuations (n : nat) (s : string) : bool :=
  match n with
  | O => true
  | S n' =>
    match s with
    | String c s' => in_range 128 191 c && continuations n' s'
    | EmptyString => false
    end
  end.

(** The byte after the first one is in the range the first one accepts, and
    the [n] bytes after it are continuation bytes. *)
Definition accepted (lo hi : N) (n : nat) (rest : string) : bool :=
  match rest with
  | String c rest' => in_range lo hi c && continuations n rest'
  | EmptyString => false
  end.

(** The number of bytes that follow the first byte [c] of the encoding at
    the head of [String c rest], when it is a valid encoding of more than one
    byte: the table of [unicode/utf8]. *)
Definition following (c : ascii) (rest : string) : option nat :=
  if in_range 194 223 c then
    if accepted 128 191 0 rest then Some 1%nat else None
  else if in_range 224 224 c then
    if accepted 160 191 1 rest then Some 2%nat else None
  else if in_range 225 236 c || in_range 238 239 c then
    if accepted 128 191 1 rest then Some 2%nat else None
  else if in_range 237 237 c then
    if accepted 128 159 1 rest then Some 2%nat else None
  else if in_range 240 240 c then
    if accepted 144 191 2 rest then Some 3%nat else None
  else if in_range 241 243 c then
    if accepted 128 191 2 rest then Some 3%nat else None
  else if in_range 244 244 c then
    if accepted 128 143 2 rest then Some 3%nat else None
  else None.

(** A string as it comes back from json, with [pending] bytes of a valid
    encoding still to copy. *)
Fixpoint coerce (pending : nat) (s : string) : string :=
  match s with
  | EmptyString => EmptyString
  | String c rest =>
    match pending with
    | S pending' => String c (coerce pending' rest)
    | O =>
      if in_range 0 127 c then String c (coerce 0 rest)
      else match following c rest with
           | Some n => String c (coerce n rest)
           | None => RuneError +:+ coerce 0 rest
           end
    end
  end.

Definition marshal (a : Agreement) : option bytes :=
  LineCodec.marshal
    {| CurrentAgreementId := coerce 0 (CurrentAgreementId a);
       AgreementProtocol := coerce 0 (AgreementProtocol a);
       AgreementInceptionTime := AgreementInceptionTime a;
       AgreementCreationTime := AgreementCreationTime a;
       Proposal := coerce 0 (Proposal a);
       DataVerificationURL := coerce 0 (DataVerificationURL a);
       DisableDataVerificationChecks := DisableDataVerificationChecks a |}.

Definition unmarshal (v : bytes) : option Agreement := LineCodec.unmarshal v.

Definition Marshal_Agreement : Marshaler Agreement := marshal.
Definition Unmarshal_Agreement : Unmarshaler Agreement := unmarshal.

End Utf8Codec.

(** ** Stores to run the operations on *)

Module Stores.

#[local] Existing Instance LineCodec.Marshal_Agreement.
#[local] Existing Instance LineCodec.Unmarshal_Agreement.

(** One agreement, [agr-1], created at time 1500000000. *)
Definition one : bolt.DB :=
  store (AgreementAttempt ∅ "agr-1" "proto-v1" 1500000000).

Definition agr1 : Agreement :=
  mkAgreement "agr-1" "proto-v1" 1500000000 0 "" "" false.

(** Two agreements, [agr-0] created after [agr-1]. *)
Definition two : bolt.DB :=
  store (AgreementAttempt one "agr-0" "proto-v1" 1500000001).

(** A transformation that overwrites every field of its copy. *)
Definition overwrite_all (a : Agreement) : Agreement :=
  mkAgreement "agr-9" "proto-v9" 9 42 "new-proposal" "http://verify" true.

(** A valid record under key [b], and bytes that are no record under [a]. *)
Definition corrupt : bolt.DB :=
  {[ AGREEMENTS :=
       {[ "a" := "not a record";
          "b" := default "" (LineCodec.marshal (mkAgreement "b" "proto-v1" 5 0 "" "" false)) ]} ]}.

(** Two keys holding records with the same agreement id. *)
Definition ambiguous : bolt.DB :=
  {[ AGREEMENTS :=
       {[ "k1" := default "" (LineCodec.marshal (mkAgreement "dup" "proto-v1" 5 0 "" "" false));
          "k2" := default "" (LineCodec.marshal (mkAgreement "dup" "proto-v2" 6 0 "" "" false)) ]} ]}.

(** A record with agreement id [x] that sits under key [y], and bytes that
    are no record under key [z] next to a record with agreement id [z]. *)
Definition displaced : bolt.DB :=
  {[ AGREEMENTS :=
       {[ "y" := default "" (LineCodec.marshal (mkAgreement "x" "proto-v1" 5 0 "" "" false));
          "z" := "not a record";
          "w" := default "" (LineCodec.marshal (mkAgreement "z" "proto-v1" 5 0 "" "" false)) ]} ]}.

End Stores.

(** ** Command line utilities (package cliutils)

    The helpers of the command line that compute on strings and codes.  The
    environment is an input: [os.Getenv] is a function from names to values,
    the empty string for a variable that is not set. *)

Module cliutils.

Definition HZN_API : string := "http://localhost".

(** The text before and after the first occurrence of the byte [sep], when
    there is one: [strings.Index] followed by the two slicings. *)
Fixpoint cut (sep : ascii) (s : string) : option (string * string) :=
  match s with
  | EmptyString => None
  | String c s' =>
    if Ascii.eqb c sep then Some (EmptyString, s')
    else match cut sep s' with
         | Some (before, after) => Some (String c before, after)
         | None => None
         end
  end.

(** [strings.SplitN(s, sep, 2)] for a separator of one byte: at most two
    parts, the second one the unsplit remainder; at least one part. *)
Definition SplitN2 (s : string) (sep : ascii) : list string :=
  match cut sep s with
  | Some (before, after) => [before; after]
  | None => [s]
  end.

(** [strings.Contains(s, substr)] for a [substr] of one byte. *)
Definition Contains (s : string) (substr : ascii) : bool :=
  match cut substr s with Some _ => true | None => false end.

(** SplitIdToken splits an id:token or user:pw and returns the parts. *)
Definition SplitIdToken (idToken : string) : string * string :=
  let parts := SplitN2 idToken ":" in
  let id := nth 0 parts "" in
  let token := "" in
  let token := if (2 <=? Z.of_nat (length parts)) then nth 1 parts "" else token in
  (id, token).

(** OrgAndCreds prepends the org to creds (separated by /) unless creds
    already has an org prepended. *)
Definition OrgAndCreds (Getenv : string → string) (org creds : string) : string :=
  if String.eqb (Getenv "USING_API_KEY") "1" then creds
  else
    let '(id, _) := SplitIdToken creds in
    if Contains id "/" then creds
    else org +:+ "/" +:+ creds.

(** GetHorizonUrlBase returns the base part of the horizon api url. *)
Definition GetHorizonUrlBase (Getenv : string → string) : string :=
  let envVar := Getenv "HORIZON_URL_BASE" in
  if negb (String.eqb envVar "") then envVar else HZN_API.

(** The bytes of the class [[A-Za-z0-9+.-]]. *)
Definition scheme_byte (c : ascii) : bool :=
  let n := Z.of_N (N_of_ascii c) in
  ((65 <=? n) && (n <=? 90)) || ((97 <=? n) && (n <=? 122))
  || ((48 <=? n) && (n <=? 57))
  || Ascii.eqb c "+" || Ascii.eqb c "." || Ascii.eqb c "-".

(** The text after a match of [^[A-Za-z0-9+.-]*?://] at the start of [s],
    when there is one.  No byte of the class is a colon, so the match is the
    run of class bytes at the start of [s] and the three bytes after it. *)
Fixpoint after_scheme (s : string) : option string :=
  match s with
  | EmptyString => None
  | String c s' =>
    if scheme_byte c then after_scheme s'
    else match s with
         | String ":" (String "/" (String "/" rest)) => Some rest
         | _ => None
         end
  end.

(** The bytes of the class [[$!*,;/?@&~=%]]. *)
Definition troublesome (c : ascii) : bool :=
  existsb (Ascii.eqb c) (list_ascii_of_string "$!*,;/?@&~=%").

Fixpoint map_bytes (f : ascii → ascii) (s : string) : string :=
  match s with
  | EmptyString => EmptyString
  | String c s' => String (f c) (map_bytes f s')
  end.

(** FormExchangeId combines url, version, arch the same way the exchange does
    to form the resource ID: the first regular expression is anchored, so it
    is replaced at most once; every match of the second one is one byte. *)
Definition FormExchangeId (url version arch : string) : string :=
  let url2 := match after_scheme url with Some rest => rest | None => url end in
  let url3 := map_bytes (λ c, if troublesome c then "-"%char else c) url2 in
  url3 +:+ "_" +:+ version +:+ "_" +:+ arch.

(** Every byte of a string satisfies a test. *)
Fixpoint all_bytes (f : ascii → bool) (s : string) : bool :=
  match s with
  | EmptyString => true
  | String c s' => f c && all_bytes f s'
  end.

Fixpoint isGoodCode_loop (actualHttpCode : Z) (goodHttpCodes : list Z) : bool :=
  match goodHttpCodes with
  | [] => false
  | code :: rest =>
    if code =? actualHttpCode then true else isGoodCode_loop actualHttpCode rest
  end.

Definition isGoodCode (actualHttpCode : Z) (goodHttpCodes : list Z) : bool :=
  if Z.of_nat (length goodHttpCodes) =? 0 then true
  else isGoodCode_loop actualHttpCode goodHttpCodes.

(** *** The REST helpers

    What the process does around one HTTP exchange.  The world outside is an
    input: the environment, the verbose flag (a pointer, nil until the command
    line is parsed), and what [net/http] answers.  A call either returns, or
    ends the process through [os.Exit], or panics; in each case it leaves the
    calls of [fmt.Fprintf] on standard error that it made, format and
    arguments as passed.  An [error] is the text it prints as.  Closing the
    body of a response has no effect that is modelled. *)

Definition JSON_PARSING_ERROR : Z := 3.
Definition READ_FILE_ERROR : Z := 4.
Definition HTTP_ERROR : Z := 5.

Inductive Arg :=
| ArgString (s : string)
| ArgInt (n : Z)
| ArgError (err : string)
| ArgUnmarshalError
| ArgMarshalError.

Record Fprintf := mkFprintf { format : string; args : list Arg }.

Inductive Outcome (A : Type) :=
| Returned (a : A)
| Exited (exitCode : Z)
| Panicked.
Arguments Returned {A} _.
Arguments Exited {A} _.
Arguments Panicked {A}.

Record Run (A : Type) := mkRun { outcome : Outcome A; stderr : list Fprintf }.
Arguments mkRun {A} _ _.
Arguments outcome {A} _.
Arguments stderr {A} _.

#[global] Instance Run_ret : MRet Run := λ A a, mkRun (Returned a) [].
#[global] Instance Run_bind : MBind Run := λ A B k m,
  match outcome m with
  | Returned a => mkRun (outcome (k a)) (stderr m ++ stderr (k a))
  | Exited exitCode => mkRun (Exited exitCode) (stderr m)
  | Panicked => mkRun Panicked (stderr m)
  end.

(** What reading a response body to its end gives: the bytes read and the
    error that stopped the reading, if any. *)
Record Body := mkBody { data : bytes; readErr : option string }.

Record Response := mkResponse { StatusCode : Z; RespBody : Body }.

Record Request := mkRequest {
  Method : string;
  URL : string;
  Header : list (string * string);
  ReqBody : option bytes
}.

Record World := mkWorld {
  Getenv : string → string;                        (* os.Getenv *)
  Opts_Verbose : option bool;                      (* Opts.Verbose *)
  http_Get : string → string + Response;           (* http.Get *)
  http_NewRequest : string → string → option string;
    (* the error of http.NewRequest for a method and a url, if any *)
  http_Do : Request → string + Response;           (* httpClient.Do *)
  base64_EncodeToString : bytes → string           (* base64.StdEncoding *)
}.

Fixpoint HasSuffix_LF (msg : string) : bool :=    (* strings.HasSuffix(msg, "\n") *)
  match msg with
  | EmptyString => false
  | String c EmptyString => Ascii.eqb c "010"
  | String _ rest => HasSuffix_LF rest
  end.

Definition Verbose (w : World) (msg : string) (args : list Arg) : Run unit :=
  match Opts_Verbose w with
  | None => mkRun Panicked []
  | Some verbose =>
    if negb verbose then mret tt
    else
      let msg := if negb (HasSuffix_LF msg) then msg +:+ String "010" "" else msg in
      mkRun (Returned tt) [mkFprintf ("[verbose] " +:+ msg) args]
  end.

Definition Fatal {A : Type} (exitCode : Z) (msg : string) (args : list Arg) : Run A :=
  let msg := if negb (HasSuffix_LF msg) then msg +:+ String "010" "" else msg in
  mkRun (Exited exitCode) [mkFprintf ("Error: " +:+ msg) args].

Definition GetRespBodyAsString (responseBody : Body) : string := data responseBody.

Definition printHorizonRestError {A : Type} (w : World) (apiMethod err : string) : Run A :=
  if String.eqb (Getenv w "HORIZON_URL_BASE") "" then
    Fatal HTTP_ERROR "Can't connect to the Horizon REST API to run %s. Run 'systemctl status horizon' to check if the Horizon agent is running. Or set HORIZON_URL_BASE to connect to another local port that is connected to a remote Horizon agent via a ssh tunnel. Specific error is: %v" [ArgString apiMethod; ArgError err]
  else
    Fatal HTTP_ERROR "Can't connect to the Horizon REST API to run %s. Maybe the ssh tunnel associated with that port is down? Or maybe the remote Horizon agent at the other end of that tunnel is down. Specific error is: %v" [ArgString apiMethod; ArgError err].

Definition printHorizonExchRestError {A : Type} (w : World) (apiMethod err : string)
    : Run A :=
  if String.eqb (Getenv w "HORIZON_EXCHANGE_URL_BASE") "" then
    Fatal HTTP_ERROR "Can't connect to the Horizon Exchange REST API to run %s. Set HORIZON_EXCHANGE_URL_BASE to use an Exchange other than the one the Horizon Agent is currently configured for. Specific error is: %v" [ArgString apiMethod; ArgError err]
  else
    Fatal HTTP_ERROR "Can't connect to the Horizon Exchange REST API to run %s. Maybe HORIZON_EXCHANGE_URL_BASE is set incorrectly? Or unset HORIZON_EXCHANGE_URL_BASE to use the Exchange that the Horizon Agent is configured for. Specific error is: %v" [ArgString apiMethod; ArgError err].

(** The structure a response is read into: a [*string], which gets the body
    as text, or a pointer to anything else, which gets the body decoded. *)
Inductive Structure := StringPtr | StructPtr.

(** What the call left in the structure. *)
Inductive Filled (T : Type) :=
| Untouched
| Text (s : string)
| Decoded (t : T).
Arguments Untouched {T}.
Arguments Text {T} _.
Arguments Decoded {T} _.

(** [strconv.Itoa]. *)
Definition Itoa (n : Z) : string := NilEmpty.string_of_int (Z.to_int n).

Section rest.
Context {T : Type} `{!Unmarshaler T}.

(** HorizonGet runs a GET on the anax api and fills in the specified
    structure with the json. *)
Definition HorizonGet (w : World) (urlSuffix : string) (goodHttpCodes : list Z)
    (structure : Structure) : Run (Z * Filled T) :=
  let url := GetHorizonUrlBase (Getenv w) +:+ "/" +:+ urlSuffix in
  let apiMsg := "GET" +:+ " " +:+ url in
  Verbose w apiMsg [] ;;
  resp ← match http_Get w url with
         | inl err => printHorizonRestError w apiMsg err
         | inr resp => mret resp
         end;
  let httpCode := StatusCode resp in
  Verbose w "HTTP code: %d" [ArgInt httpCode] ;;
  (if negb (isGoodCode httpCode goodHttpCodes)
   then Fatal HTTP_ERROR "bad HTTP code from %s: %d" [ArgString apiMsg; ArgInt httpCode]
   else mret tt) ;;
  match goodHttpCodes with
  | [] => mkRun Panicked []                         (* goodHttpCodes[0] *)
  | first :: _ =>
    if httpCode =? first then
      match readErr (RespBody resp) with
      | Some err =>
        Fatal HTTP_ERROR "failed to read body response for %s: %v"
              [ArgString apiMsg; ArgError err]
      | None =>
        let bodyBytes := data (RespBody resp) in
        match structure with
        | StringPtr => mret (httpCode, Text bodyBytes)
        | StructPtr =>
          match json_Unmarshal bodyBytes with
          | None =>
            Fatal JSON_PARSING_ERROR "failed to unmarshal body response for %s: %v"
                  [ArgString apiMsg; ArgUnmarshalError]
          | Some t => mret (httpCode, Decoded t)
          end
        end
      end
    else mret (httpCode, Untouched)
  end.

End rest.

(** HorizonDelete runs a DELETE on the anax api. *)
Definition HorizonDelete (w : World) (urlSuffix : string) (goodHttpCodes : list Z)
    : Run Z :=
  let url := GetHorizonUrlBase (Getenv w) +:+ "/" +:+ urlSuffix in
  let apiMsg := "DELETE" +:+ " " +:+ url in
  Verbose w apiMsg [] ;;
  req ← match http_NewRequest w "DELETE" url with
        | Some err =>
          Fatal HTTP_ERROR "%s new request failed: %v" [ArgString apiMsg; ArgError err]
        | None => mret (mkRequest "DELETE" url [] None)
        end;
  resp ← match http_Do w req with
         | inl err => printHorizonRestError w apiMsg err
         | inr resp => mret resp
         end;
  let httpCode := StatusCode resp in
  Verbose w "HTTP code: %d" [ArgInt httpCode] ;;
  (if negb (isGoodCode httpCode goodHttpCodes)
   then Fatal HTTP_ERROR "bad HTTP code %d from %s: %s"
              [ArgInt httpCode; ArgString apiMsg;
               ArgString (GetRespBodyAsString (RespBody resp))]
   else mret tt) ;;
  mret httpCode.

(** The body of a PUT or POST: bytes or a string, sent as they are, or
    anything else, sent as json. *)
Inductive PutPostBody (T : Type) :=
| BodyBytes (b : bytes)
| BodyString (b : string)
| BodyOther (b : T).
Arguments BodyBytes {T} _.
Arguments BodyString {T} _.
Arguments BodyOther {T} _.

Section put_post.
Context {T : Type} `{!Marshaler T}.

(** HorizonPutPost runs a PUT or POST to the anax api to create or update a
    resource. *)
Definition HorizonPutPost (w : World) (method urlSuffix : string)
    (goodHttpCodes : list Z) (body : PutPostBody T) : Run Z :=
  let url := GetHorizonUrlBase (Getenv w) +:+ "/" +:+ urlSuffix in
  let apiMsg := method +:+ " " +:+ url in
  Verbose w apiMsg [] ;;
  '(jsonBytes, bodyIsBytes) ←
    match body with
    | BodyBytes b => mret (b, true)
    | BodyString b => mret (b, true)
    | BodyOther b =>
      match json_Marshal b with
      | None =>
        Fatal JSON_PARSING_ERROR "failed to marshal body for %s: %v"
              [ArgString apiMsg; ArgMarshalError]
      | Some jsonBytes => mret (jsonBytes, false)
      end
    end;
  req ← match http_NewRequest w method url with
        | Some err =>
          Fatal HTTP_ERROR "%s new request failed: %v" [ArgString apiMsg; ArgError err]
        | None => mret (mkRequest method url [] (Some jsonBytes))
        end;
  let req := mkRequest (Method req) (URL req)
               (Header req ++ [("Accept", "application/json")]) (ReqBody req) in
  let req :=
    if bodyIsBytes : bool then
      mkRequest (Method req) (URL req)
        (Header req ++ [("Content-Length", Itoa (Z.of_nat (String.length jsonBytes)))])
        (ReqBody req)
    else
      mkRequest (Method req) (URL req)
        (Header req ++ [("Content-Type", "application/json")]) (ReqBody req) in
  resp ← match http_Do w req with
         | inl err => printHorizonRestError w apiMsg err
         | inr resp => mret resp
         end;
  let httpCode := StatusCode resp in
  Verbose w "HTTP code: %d" [ArgInt httpCode] ;;
  (if negb (isGoodCode httpCode goodHttpCodes)
   then Fatal HTTP_ERROR "bad HTTP code %d from %s: %s"
              [ArgInt httpCode; ArgString apiMsg;
               ArgString (GetRespBodyAsString (RespBody resp))]
   else mret tt) ;;
  mret httpCode.

End put_post.

(** ExchangeDelete deletes a resource via the exchange api. *)
Definition ExchangeDelete (w : World) (urlBase urlSuffix credentials : string)
    (goodHttpCodes : list Z) : Run Z :=
  let url := urlBase +:+ "/" +:+ urlSuffix in
  let apiMsg := "DELETE" +:+ " " +:+ url in
  Verbose w apiMsg [] ;;
  req ← match http_NewRequest w "DELETE" url with
        | Some err =>
          Fatal HTTP_ERROR "%s new request failed: %v" [ArgString apiMsg; ArgError err]
        | None => mret (mkRequest "DELETE" url [] None)
        end;
  let req := mkRequest (Method req) (URL req)
               (Header req ++ [("Authorization",
                                "Basic " +:+ base64_EncodeToString w credentials)])
               (ReqBody req) in
  resp ← match http_Do w req with
         | inl err => printHorizonExchRestError w apiMsg err
         | inr resp => mret resp
         end;
  let httpCode := StatusCode resp in
  Verbose w "HTTP code: %d" [ArgInt httpCode] ;;
  (if negb (isGoodCode httpCode goodHttpCodes)
   then Fatal HTTP_ERROR "bad HTTP code %d from %s" [ArgInt httpCode; ArgString apiMsg]
   else mret tt) ;;
  mret httpCode.

(** *** Reading json with comments *)

Definition starts_with (c : ascii) (s : string) : bool :=
  match s with
  | String d _ => Ascii.eqb d c
  | EmptyString => false
  end.

(** The number of bytes before the first [*/] of a text, when it has one. *)
Fixpoint close_index (s : string) : option nat :=
  match s with
  | EmptyString => None
  | String c s' =>
    if Ascii.eqb c "*" && starts_with "/" s' then Some 0%nat
    else S <$> close_index s'
  end.

(** A text has a [/*]. *)
Fixpoint has_open (s : string) : bool :=
  match s with
  | EmptyString => false
  | String c s' => (Ascii.eqb c "/" && starts_with "*" s') || has_open s'
  end.

Definition tail (s : string) : string :=
  match s with
  | String _ s' => s'
  | EmptyString => EmptyString
  end.

(** [regexp.MustCompile(`(?s)/\*.*?\*/`).ReplaceAll(s, nil)], with [skip]
    bytes of a match still to drop: a match starts at the leftmost [/*] that
    has a [*/] after it and ends with the first such [*/]; the search goes on
    after the match.  A [/*] with no [*/] after it starts no match, and then
    no later one does. *)
Fixpoint remove_comments (skip : nat) (s : string) : string :=
  match s with
  | EmptyString => EmptyString
  | String c s' =>
    match skip with
    | S skip' => remove_comments skip' s'
    | O =>
      if Ascii.eqb c "/" && starts_with "*" s' then
        match close_index (tail s') with
        | Some n => remove_comments (n + 3) s'
        | None => String c (remove_comments 0 s')
        end
      else String c (remove_comments 0 s')
    end
  end.

(** ReadJsonFile reads json from a file or stdin, eliminates comments, and
    returns it.  [ReadAll_Stdin] is what reading standard input to its end
    gives and [ioutil_ReadFile] what reading a file gives: the error, or the
    bytes. *)
Definition ReadJsonFile (ReadAll_Stdin : string + bytes)
    (ioutil_ReadFile : string → string + bytes) (filePath : string) : Run bytes :=
  let read := if String.eqb filePath "-" then ReadAll_Stdin else ioutil_ReadFile filePath in
  match read with
  | inl err =>
    Fatal READ_FILE_ERROR "reading %s failed: %v" [ArgString filePath; ArgError err]
  | inr fileBytes => mret (remove_comments 0 fileBytes)
  end.

Definition JSON_INDENT : string := "  ".

(** [json.MarshalIndent] of a value decoded into an [interface{}]. *)
Class Indenter (J : Type) := json_MarshalIndent : J → string → string → option bytes.

Section exchange_get.
Context {T J : Type} `{!Unmarshaler T, !Unmarshaler J, !Indenter J}.

(** ExchangeGet runs a GET to the exchange api and fills in the specified
    json structure.  If the structure is just a string, fill in the raw
    json, decoded into [J] and indented. *)
Definition ExchangeGet (w : World) (urlBase urlSuffix credentials : string)
    (goodHttpCodes : list Z) (structure : Structure) : Run (Z * Filled T) :=
  let url := urlBase +:+ "/" +:+ urlSuffix in
  let apiMsg := "GET" +:+ " " +:+ url in
  Verbose w apiMsg [] ;;
  req ← match http_NewRequest w "GET" url with
        | Some err =>
          Fatal HTTP_ERROR "%s new request failed: %v" [ArgString apiMsg; ArgError err]
        | None => mret (mkRequest "GET" url [] None)
        end;
  let req := mkRequest (Method req) (URL req)
               (Header req ++ [("Accept", "application/json")]) (ReqBody req) in
  let req := mkRequest (Method req) (URL req)
               (Header req ++ [("Authorization",
                                "Basic " +:+ base64_EncodeToString w credentials)])
               (ReqBody req) in
  resp ← match http_Do w req with
         | inl err => printHorizonExchRestError w apiMsg err
         | inr resp => mret resp
         end;
  bodyBytes ← match readErr (RespBody resp) with
              | Some err =>
                Fatal HTTP_ERROR "failed to read body response for %s: %v"
                      [ArgString apiMsg; ArgError err]
              | None => mret (data (RespBody resp))
              end;
  let httpCode := StatusCode resp in
  Verbose w "HTTP code: %d" [ArgInt httpCode] ;;
  (if negb (isGoodCode httpCode goodHttpCodes)
   then Fatal HTTP_ERROR "bad HTTP code %d from %s, output: %s"
              [ArgInt httpCode; ArgString apiMsg; ArgString bodyBytes]
   else mret tt) ;;
  match structure with
  | StringPtr =>
    match json_Unmarshal (T:=J) bodyBytes with
    | None =>
      Fatal JSON_PARSING_ERROR "failed to unmarshal body response for %s: %v"
            [ArgString apiMsg; ArgUnmarshalError]
    | Some jsonStruct =>
      match json_MarshalIndent jsonStruct "" JSON_INDENT with
      | None =>
        Fatal JSON_PARSING_ERROR "failed to marshal exchange output: %v" [ArgMarshalError]
      | Some jsonBytes => mret (httpCode, Text jsonBytes)
      end
    end
  | StructPtr =>
    match json_Unmarshal (T:=T) bodyBytes with
    | None =>
      Fatal JSON_PARSING_ERROR "failed to unmarshal body response for %s: %v"
            [ArgString apiMsg; ArgUnmarshalError]
    | Some t => mret (httpCode, Decoded t)
    end
  end.

End exchange_get.

(** The two fields of [exchange.PostDeviceResponse] that are printed. *)
Record PostDeviceResponse := mkPostDeviceResponse { Code : string; Msg : string }.

(** The body of an exchange PUT or POST: a string, given to the exchange as
    json, or anything else, marshalled to json. *)
Inductive ExchangeBody (T : Type) :=
| ExchangeString (b : string)
| ExchangeOther (b : T).
Arguments ExchangeString {T} _.
Arguments ExchangeOther {T} _.

Section exchange_put_post.
Context {T : Type} `{!Marshaler T, !Unmarshaler PostDeviceResponse}.

(** ExchangePutPost runs a PUT or POST to the exchange api to create or
    update a resource. *)
Definition ExchangePutPost (w : World) (method urlBase urlSuffix credentials : string)
    (goodHttpCodes : list Z) (body : ExchangeBody T) : Run Z :=
  let url := urlBase +:+ "/" +:+ urlSuffix in
  let apiMsg := method +:+ " " +:+ url in
  Verbose w apiMsg [] ;;
  jsonBytes ←
    match body with
    | ExchangeString b => mret b
    | ExchangeOther b =>
      match json_Marshal b with
      | None =>
        Fatal JSON_PARSING_ERROR "failed to marshal body for %s: %v"
              [ArgString apiMsg; ArgMarshalError]
      | Some jsonBytes => mret jsonBytes
      end
    end;
  req ← match http_NewRequest w method url with
        | Some err =>
          Fatal HTTP_ERROR "%s new request failed: %v" [ArgString apiMsg; ArgError err]
        | None => mret (mkRequest method url [] (Some jsonBytes))
        end;
  let req := mkRequest (Method req) (URL req)
               (Header req ++ [("Accept", "application/json")]) (ReqBody req) in
  let req := mkRequest (Method req) (URL req)
               (Header req ++ [("Content-Type", "application/json")]) (ReqBody req) in
  let req :=
    if negb (String.eqb credentials "") then
      mkRequest (Method req) (URL req)
        (Header req ++ [("Authorization",
                         "Basic " +:+ base64_EncodeToString w credentials)])
        (ReqBody req)
    else req in                                     (* else it is an anonymous call *)
  resp ← match http_Do w req with
         | inl err => printHorizonExchRestError w apiMsg err
         | inr resp => mret resp
         end;
  let httpCode := StatusCode resp in
  Verbose w "HTTP code: %d" [ArgInt httpCode] ;;
  (if negb (isGoodCode httpCode goodHttpCodes) then
     bodyBytes ← match readErr (RespBody resp) with
                 | Some err =>
                   Fatal HTTP_ERROR "failed to read body response for %s: %v"
                         [ArgString apiMsg; ArgError err]
                 | None => mret (data (RespBody resp))
                 end;
     respMsg ← match json_Unmarshal (T:=PostDeviceResponse) bodyBytes with
               | None =>
                 Fatal JSON_PARSING_ERROR "failed to unmarshal body response for %s: %v"
                       [ArgString apiMsg; ArgUnmarshalError]
               | Some respMsg => mret respMsg
               end;
     Fatal HTTP_ERROR "bad HTTP code %d from %s: %s, %s"
           [ArgInt httpCode; ArgString apiMsg;
            ArgString (Code respMsg); ArgString (Msg respMsg)]
   else mret tt) ;;
  mret httpCode.

End exchange_put_post.

End cliutils.

(** ** Worlds to run the REST helpers in *)

Module Worlds.
Import cliutils.

(** No variable set, the verbose flag off, every request answered: a GET
    with status 200 and a body, anything else with status 204 and no body.
    The encoder is a stand-in that returns its argument. *)
Definition quiet : World :=
  {| Getenv := λ _, "";
     Opts_Verbose := Some false;
     http_Get := λ _, inr (mkResponse 200 (mkBody "running" None));
     http_NewRequest := λ _ _, None;
     http_Do := λ _, inr (mkResponse 204 (mkBody "" None));
     base64_EncodeToString := λ s, s |}.

End Worlds.

(** * Properties *)

(** ** The scan *)

(** A record passes a list of filters when every one of them accepts it. *)
Definition passes (filters : list AFilter) (a : Agreement) : Prop :=
  Forall (λ filterFn : AFilter, filterFn a = true) filters.

#[global] Instance passes_dec filters a : Decision (passes filters a).
Proof. unfold passes. apply _. Defined.

Section scan.
Context `{!Marshaler Agreement, !Unmarshaler Agreement}.

Lemma excluded_from (filters : list AFilter) (a : Agreement) (init : bool) :
  fold_left (λ exclude (filterFn : AFilter), if negb (filterFn a) then true else exclude)
            filters init
  = init || negb (forallb (λ filterFn : AFilter, filterFn a) filters).
Proof.
  revert init. induction filters as [|f filters IH]; intros init; simpl.
  - by rewrite orb_false_r.
  - rewrite IH. destruct (f a), init; simpl; try done.
Qed.

Lemma excluded_false (filters : list AFilter) (a : Agreement) :
  excluded filters a = false ↔ passes filters a.
Proof.
  unfold excluded, passes. rewrite excluded_from. simpl.
  rewrite negb_false_iff, forallb_forall, Forall_forall.
  split; intros H f Hf; apply H; by apply list_elem_of_In.
Qed.

Lemma visit_all (filters : list AFilter) (l : list (bytes * bytes))
    (agreements : list Agreement) (out : list LogEntry) :
  fold_left (visit filters) l (agreements, out)
  = (agreements ++ filter (passes filters) (omap (λ kv, json_Unmarshal kv.2) l),
     out ++ scan_log l).
Proof.
  revert agreements out. induction l as [|kv l IH]; intros agreements out; simpl.
  - by rewrite !app_nil_r.
  - change (scan_log (kv :: l)) with (scan_log [kv] ++ scan_log l).
    unfold scan_log at 1; simpl.
    destruct (json_Unmarshal kv.2) as [a|] eqn:Hdec; rewrite IH.
    + rewrite filter_cons. destruct (decide (passes filters a)) as [Hp|Hp].
      * apply excluded_false in Hp. rewrite Hp. simpl.
        by rewrite <- !app_assoc.
      * destruct (excluded filters a) eqn:Hex.
        -- simpl. by rewrite <- app_assoc.
        -- by apply excluded_false in Hex.
    + by rewrite <- app_assoc.
Qed.

Lemma FindAgreements_val (db : bolt.DB) (filters : list AFilter) :
  val (FindAgreements db filters)
  = (filter (passes filters) (stored_agreements db), None).
Proof.
  unfold FindAgreements, stored_agreements, bolt.View.
  destruct (bolt.Bucket_ db AGREEMENTS) as [b|]; [|done].
  rewrite visit_all. done.
Qed.

Lemma FindAgreements_store (db : bolt.DB) (filters : list AFilter) :
  store (FindAgreements db filters) = db.
Proof.
  unfold FindAgreements, bolt.View.
  destruct (bolt.Bucket_ db AGREEMENTS) as [b|]; [|done].
  rewrite visit_all. done.
Qed.

Lemma FindAgreements_logged (db : bolt.DB) (filters : list AFilter) :
  logged (FindAgreements db filters)
  = match bolt.Bucket_ db AGREEMENTS with
    | Some b => scan_log (bolt.ForEach b)
    | None => []
    end.
Proof.
  unfold FindAgreements, bolt.View.
  destruct (bolt.Bucket_ db AGREEMENTS) as [b|]; [|done].
  rewrite visit_all. done.
Qed.

End scan.

Section scan_claims.
Context `{!Marshaler Agreement, !Unmarshaler Agreement}.

(** C6. [FindAgreements] returns exactly the decodable records that every
    filter of the list accepts: a record in the result is accepted by each
    filter (conjunction, not disjunction), and with the filters
    [IdAFilter "a"] and always-false nothing is returned, so the record with
    id "a" is excluded. *)
Theorem FindAgreements_all_filters (db : bolt.DB) (filters : list AFilter) :
  (val (FindAgreements db filters)).1 = filter (passes filters) (stored_agreements db)
  ∧ (∀ a, a ∈ (val (FindAgreements db filters)).1 →
          ∀ filterFn : AFilter, filterFn ∈ filters → filterFn a = true)
  ∧ (val (FindAgreements db [IdAFilter "a"; λ _, false])).1 = [].
Proof.
  rewrite !FindAgreements_val. simpl. split_and!.
  - done.
  - intros a [Hp _]%list_elem_of_filter f Hf.
    unfold passes in Hp. rewrite Forall_forall in Hp. by apply Hp.
  - induction (stored_agreements db) as [|a l IH]; [done|].
    rewrite filter_cons_False; [done|].
    intros Hp. apply Forall_cons_1 in Hp as [_ Hp].
    by apply Forall_cons_1 in Hp as [? _].
Qed.

(** C8. [FindAgreements] returns no error whatever the store holds; without
    the agreements bucket its result is empty; a value that cannot be decoded
    leaves one error entry in the log and no record, and the pairs before and
    after it are scanned as they would be without it. *)
Theorem FindAgreements_tolerant (db : bolt.DB) (filters : list AFilter) :
  (val (FindAgreements db filters)).2 = None
  ∧ (bolt.Bucket_ db AGREEMENTS = None →
     val (FindAgreements db filters) = ([], None) ∧ logged (FindAgreements db filters) = [])
  ∧ (∀ b l1 k v l2,
       bolt.Bucket_ db AGREEMENTS = Some b →
       bolt.ForEach b = l1 ++ (k, v) :: l2 →
       json_Unmarshal v = None →
       (val (FindAgreements db filters)).1
       = filter (passes filters) (omap (λ kv, json_Unmarshal kv.2) l1)
         ++ filter (passes filters) (omap (λ kv, json_Unmarshal kv.2) l2)
       ∧ logged (FindAgreements db filters)
         = scan_log l1 ++ Errorf (UnableToDeserializeRecord v) :: scan_log l2).
Proof.
  rewrite FindAgreements_val, FindAgreements_logged. unfold stored_agreements.
  split_and!.
  - done.
  - by intros ->.
  - intros b l1 k v l2 -> -> Hv. simpl. split.
    + rewrite omap_app, filter_app. do 2 f_equal. simpl. by rewrite Hv.
    + unfold scan_log. rewrite fmap_app, fmap_cons. simpl. by rewrite Hv.
Qed.

Lemma FindSingleAgreementByAgreementId_store (db : bolt.DB) (agreementid : string) :
  store (FindSingleAgreementByAgreementId db agreementid) = db.
Proof.
  unfold FindSingleAgreementByAgreementId.
  pose proof (FindAgreements_store db ([] ++ [IdAFilter agreementid])) as Hs.
  destruct (FindAgreements db _) as [[ags [e|]] s lg]; simpl in *; [done|].
  destruct (1 <? Z.of_nat (length ags)); [done|]. by destruct ags.
Qed.

Lemma passes_IdAFilter (id : string) (a : Agreement) :
  passes [IdAFilter id] a ↔ CurrentAgreementId a = id.
Proof.
  unfold passes, IdAFilter. rewrite Forall_singleton. apply bool_decide_eq_true.
Qed.

Lemma FindSingleAgreementByAgreementId_val (db : bolt.DB) (agreementid : string) :
  val (FindSingleAgreementByAgreementId db agreementid)
  = match filter (λ a, CurrentAgreementId a = agreementid) (stored_agreements db) with
    | [] => (None, None)
    | [a] => (Some a, None)
    | _ :: _ :: _ =>
      (None, Some (ExpectedOnlyOneRecord agreementid
                     (filter (λ a, CurrentAgreementId a = agreementid)
                             (stored_agreements db))))
    end.
Proof.
  unfold FindSingleAgreementByAgreementId.
  pose proof (FindAgreements_val db ([] ++ [IdAFilter agreementid])) as Hv.
  simpl in Hv.
  rewrite (list_filter_iff _ (λ a, CurrentAgreementId a = agreementid)) in Hv
    by (intros; apply passes_IdAFilter).
  destruct (FindAgreements db _) as [v s lg]; simpl in *. rewrite Hv.
  destruct (filter _ (stored_agreements db)) as [|a [|a' l]]; simpl; try done.
  destruct (1 <? Z.of_nat (S (S (length l)))) eqn:Hlen; [done|].
  apply Z.ltb_ge in Hlen. lia.
Qed.

(** C2. With [matched] the decodable stored records whose agreement id is
    [agreementid], the lookup returns nil and no error when there is none, the
    record when there is one, and the error that carries all of [matched]
    when there are several.  The store is left as it was. *)
Theorem FindSingleAgreementByAgreementId_contract (db : bolt.DB) (agreementid : string) :
  let matched := filter (λ a, CurrentAgreementId a = agreementid) (stored_agreements db) in
  val (FindSingleAgreementByAgreementId db agreementid)
  = match matched with
    | [] => (None, None)
    | [a] => (Some a, None)
    | _ :: _ :: _ => (None, Some (ExpectedOnlyOneRecord agreementid matched))
    end
  ∧ store (FindSingleAgreementByAgreementId db agreementid) = db.
Proof.
  intros matched. split.
  - apply FindSingleAgreementByAgreementId_val.
  - apply FindSingleAgreementByAgreementId_store.
Qed.

End scan_claims.

(** ** The store primitives *)

Section store.

Lemma Get_CreateBucketIfNotExists (tx tx' : bolt.DB) (name key : string) :
  bolt.CreateBucketIfNotExists tx name = inr tx' →
  is_Some (tx' !! name) ∧ bolt.Get tx' name key = bolt.Get tx name key
  ∧ (is_Some (tx !! name) → tx' = tx).
Proof.
  unfold bolt.CreateBucketIfNotExists, bolt.Get.
  destruct (decide (name = "")); [done|].
  destruct (tx !! name) as [b|] eqn:Hb; intros [= <-].
  - rewrite Hb. eauto.
  - rewrite lookup_insert_eq. simpl. split_and!; [eauto|done|by intros [??]].
Qed.

Lemma CreateBucketIfNotExists_AGREEMENTS (tx : bolt.DB) :
  ∃ tx', bolt.CreateBucketIfNotExists tx AGREEMENTS = inr tx'.
Proof.
  unfold bolt.CreateBucketIfNotExists.
  destruct (decide (AGREEMENTS = "")); [done|].
  destruct (tx !! AGREEMENTS); eauto.
Qed.

Lemma Get_Put (tx tx' : bolt.DB) (name key value key' : string) :
  is_Some (tx !! name) →
  bolt.Put tx name key value = inr tx' →
  bolt.Get tx' name key' = if decide (key' = key) then Some value else bolt.Get tx name key'.
Proof.
  unfold bolt.Put, bolt.Get. intros [b Hb] Hput.
  repeat case_match; try done. all: injection Hput as <-.
  all: rewrite lookup_alter_eq, Hb; simpl.
  - subst. by rewrite lookup_insert_eq.
  - by rewrite lookup_insert_ne.
Qed.

Lemma Get_Delete (tx : bolt.DB) (name key key' : string) :
  bolt.Get (bolt.Delete tx name key) name key'
  = if decide (key' = key) then None else bolt.Get tx name key'.
Proof.
  unfold bolt.Delete, bolt.Get. rewrite lookup_alter_eq.
  destruct (tx !! name) as [b|]; simpl.
  - case_decide; subst; [apply lookup_delete_eq|by apply lookup_delete_ne].
  - by case_decide.
Qed.

Lemma Get_is_Some_bucket (tx : bolt.DB) (name key : string) :
  is_Some (bolt.Get tx name key) → is_Some (tx !! name).
Proof. unfold bolt.Get. destruct (tx !! name); [eauto|]. by intros [??]. Qed.

Lemma ForEach_Permutation (b : gmap string string) : bolt.ForEach b ≡ₚ map_to_list b.
Proof. apply merge_sort_Permutation. Qed.

End store.

(** ** Lookup in a consistent store *)

Section lookup.
Context `{!Marshaler Agreement, !Unmarshaler Agreement}.

Lemma matched_none (id : string) (l : list (bytes * bytes)) :
  (∀ k v a, (k, v) ∈ l → json_Unmarshal v = Some a → CurrentAgreementId a ≠ id) →
  filter (λ a, CurrentAgreementId a = id) (omap (λ kv, json_Unmarshal kv.2) l) = [].
Proof.
  intros Hne. apply elem_of_nil_inv. intros a [Hid Ha]%list_elem_of_filter.
  apply list_elem_of_omap in Ha as ([k v] & Hkv & Hdec).
  by eapply Hne.
Qed.

(** In a bucket whose records sit under their own ids, the records a scan
    matches with an id are the one under that key, if it can be decoded. *)
Lemma matched_at_key (b : gmap string string) (id : string) :
  (∀ k v a, b !! k = Some v → json_Unmarshal v = Some a → CurrentAgreementId a = k) →
  filter (λ a, CurrentAgreementId a = id)
         (omap (λ kv, json_Unmarshal kv.2) (bolt.ForEach b))
  = match b !! id ≫= json_Unmarshal with Some a => [a] | None => [] end.
Proof.
  intros Hcons. destruct (b !! id) as [v|] eqn:Hv; simpl.
  - assert (filter (λ a, CurrentAgreementId a = id)
              (omap (λ kv, json_Unmarshal kv.2) (map_to_list (delete id b))) = [])
      as Hrest.
    { apply matched_none. intros k v' a [Hk Hne]%elem_of_map_to_list%lookup_delete_Some Hdec.
      rewrite (Hcons _ _ _ Hne Hdec). done. }
    assert (filter (λ a, CurrentAgreementId a = id)
              (omap (λ kv, json_Unmarshal kv.2) (bolt.ForEach b))
            ≡ₚ match json_Unmarshal v with Some a => [a] | None => [] end) as Hperm.
    { rewrite ForEach_Permutation, <- (map_to_list_delete b id v Hv). csimpl.
      destruct (json_Unmarshal v) as [a|] eqn:Hdec; csimpl; [|by rewrite Hrest].
      rewrite filter_cons_True by (by eapply Hcons). by rewrite Hrest. }
    destruct (json_Unmarshal v).
    + by apply Permutation_singleton_r.
    + by apply Permutation_nil_r.
  - apply matched_none. intros k v a Hkv Hdec Hid.
    rewrite ForEach_Permutation in Hkv. apply elem_of_map_to_list in Hkv.
    pose proof (Hcons _ _ _ Hkv Hdec). congruence.
Qed.

Lemma FindSingleAgreementByAgreementId_consistent (db : bolt.DB) (agreementid : string) :
  store_consistent db →
  val (FindSingleAgreementByAgreementId db agreementid)
  = (stored_agreement db agreementid, None).
Proof.
  intros Hcons.
  rewrite FindSingleAgreementByAgreementId_val.
  unfold stored_agreements, stored_agreement, bolt.Bucket_, bolt.Get in *.
  destruct (db !! AGREEMENTS) as [b|] eqn:Hb; simpl; [|done].
  rewrite matched_at_key.
  - by destruct (b !! agreementid ≫= json_Unmarshal).
  - intros k v a Hk Hdec. apply (Hcons k v a); [|done].
    unfold bolt.Get. by rewrite Hb.
Qed.

End lookup.

(** ** The write paths, transaction by transaction *)

Section writes.
Context `{!Marshaler Agreement, !Unmarshaler Agreement}.

(** [persistUpdatedAgreement] without the transaction around it. *)
Lemma persistUpdatedAgreement_eq (db : bolt.DB) (agreementid : string) (update : Agreement) :
  persistUpdatedAgreement db agreementid update
  = match bolt.Get db AGREEMENTS agreementid with
    | None => mkRet (Some (NoAgreementToUpdate agreementid)) db []
    | Some current =>
      match json_Unmarshal current with
      | None => mkRet (Some (FailedToUnmarshal current)) db []
      | Some mod' =>
        match json_Marshal (whole_member_replacements mod' update) with
        | None =>
          mkRet (Some (FailedToSerialize (whole_member_replacements mod' update))) db []
        | Some serialized =>
          match bolt.Put db AGREEMENTS agreementid serialized with
          | inl _ => mkRet (Some (FailedToWriteRecord agreementid)) db []
          | inr tx =>
            mkRet None tx [Infof 2 (SucceededUpdating (whole_member_replacements mod' update))]
          end
        end
      end
    end.
Proof.
  unfold persistUpdatedAgreement, bolt.Update.
  destruct (CreateBucketIfNotExists_AGREEMENTS db) as [tx Htx]. rewrite Htx.
  destruct (Get_CreateBucketIfNotExists _ _ _ agreementid Htx) as (_ & -> & Hsame).
  destruct (bolt.Get db AGREEMENTS agreementid) as [current|] eqn:Hget; [|done].
  rewrite Hsame by (apply (Get_is_Some_bucket _ _ agreementid); eauto).
  destruct (json_Unmarshal current) as [m|]; [|done].
  simpl. destruct (json_Marshal _) as [serialized|]; [|done].
  by destruct (bolt.Put db AGREEMENTS agreementid serialized).
Qed.

(** What a successful [persistUpdatedAgreement] read and what it wrote. *)
Lemma persistUpdatedAgreement_success (db : bolt.DB) (agreementid : string)
    (update : Agreement) :
  val (persistUpdatedAgreement db agreementid update) = None →
  ∃ current mod' serialized,
    bolt.Get db AGREEMENTS agreementid = Some current
    ∧ json_Unmarshal current = Some mod'
    ∧ json_Marshal (whole_member_replacements mod' update) = Some serialized
    ∧ ∀ key, bolt.Get (store (persistUpdatedAgreement db agreementid update)) AGREEMENTS key
             = if decide (key = agreementid) then Some serialized
               else bolt.Get db AGREEMENTS key.
Proof.
  rewrite persistUpdatedAgreement_eq.
  destruct (bolt.Get db AGREEMENTS agreementid) as [current|] eqn:Hget; [|done].
  destruct (json_Unmarshal current) as [m|] eqn:Hdec; [|done].
  destruct (json_Marshal _) as [serialized|] eqn:Henc; [|done].
  destruct (bolt.Put db AGREEMENTS agreementid serialized) as [|tx] eqn:Hput; [done|].
  intros _. exists current, m, serialized. split_and!; try done.
  intros key. simpl. eapply Get_Put; [|done].
  apply (Get_is_Some_bucket _ _ agreementid); eauto.
Qed.

(** [singleAgreementUpdate] once the lookup has found a record. *)
Lemma singleAgreementUpdate_found (db : bolt.DB) (agreementid : string)
    (fn : Agreement → Agreement) (a : Agreement) :
  val (FindSingleAgreementByAgreementId db agreementid) = (Some a, None) →
  val (singleAgreementUpdate db agreementid fn)
  = (Some (fn a), val (persistUpdatedAgreement db agreementid (fn a)))
  ∧ store (singleAgreementUpdate db agreementid fn)
    = store (persistUpdatedAgreement db agreementid (fn a)).
Proof.
  intros Hfind. unfold singleAgreementUpdate.
  pose proof (FindSingleAgreementByAgreementId_store db agreementid) as Hs.
  destruct (FindSingleAgreementByAgreementId db agreementid) as [v s lg].
  simpl in *. subst. done.
Qed.

(** A successful [singleAgreementUpdate] found a record and persisted the
    transformed one. *)
Lemma singleAgreementUpdate_success (db : bolt.DB) (agreementid : string)
    (fn : Agreement → Agreement) (updated : Agreement) :
  val (singleAgreementUpdate db agreementid fn) = (Some updated, None) →
  ∃ a, val (FindSingleAgreementByAgreementId db agreementid) = (Some a, None)
       ∧ updated = fn a
       ∧ val (persistUpdatedAgreement db agreementid (fn a)) = None
       ∧ store (singleAgreementUpdate db agreementid fn)
         = store (persistUpdatedAgreement db agreementid (fn a)).
Proof.
  intros Hok.
  destruct (val (FindSingleAgreementByAgreementId db agreementid)) as [[a|] [e|]] eqn:Hfind.
  1,3,4: unfold singleAgreementUpdate in Hok; rewrite Hfind in Hok; done.
  destruct (singleAgreementUpdate_found db agreementid fn a Hfind) as [Hv Hs].
  rewrite Hv in Hok. injection Hok as <- Hp. eauto.
Qed.

End writes.

(** ** The update engine *)

Section update_claims.
Context `{!Marshaler Agreement, !Unmarshaler Agreement}.

Lemma RoundTrips_decode (a : Agreement) (serialized : bytes) :
  RoundTrips a → json_Marshal a = Some serialized → json_Unmarshal serialized = Some a.
Proof. intros (s & Hs & Hdec) Henc. congruence. Qed.

(** The record under the key after a successful [persistUpdatedAgreement]. *)
Lemma persistUpdatedAgreement_stored (db : bolt.DB) (agreementid : string)
    (update before : Agreement) :
  stored_agreement db agreementid = Some before →
  val (persistUpdatedAgreement db agreementid update) = None →
  RoundTrips (whole_member_replacements before update) →
  stored_agreement (store (persistUpdatedAgreement db agreementid update)) agreementid
  = Some (whole_member_replacements before update)
  ∧ ∀ key, key ≠ agreementid →
      bolt.Get (store (persistUpdatedAgreement db agreementid update)) AGREEMENTS key
      = bolt.Get db AGREEMENTS key.
Proof.
  intros Hbefore Hok Hrt.
  destruct (persistUpdatedAgreement_success _ _ _ Hok)
    as (current & m & serialized & Hget & Hdec & Henc & Hstore).
  unfold stored_agreement in *. rewrite Hget in Hbefore. simpl in Hbefore.
  assert (m = before) as -> by congruence.
  split.
  - rewrite Hstore. rewrite decide_True by done. simpl.
    by apply RoundTrips_decode.
  - intros key Hne. rewrite Hstore. by rewrite decide_False.
Qed.

(** C1. After a successful [singleAgreementUpdate] with any transformation
    [fn], the record stored under the id has the agreement id, the protocol
    and the inception time it had before, whatever [fn] did to them on its
    copy; the creation time, the proposal, the data verification URL and the
    flag that disables the checks are those of the transformed record, and no
    other key of the bucket has changed. *)
Theorem singleAgreementUpdate_keeps_immutable_fields (db : bolt.DB) (agreementid : string)
    (fn : Agreement → Agreement) (before updated : Agreement) :
  stored_agreement db agreementid = Some before →
  val (singleAgreementUpdate db agreementid fn) = (Some updated, None) →
  RoundTrips (whole_member_replacements before updated) →
  ∃ after,
    stored_agreement (store (singleAgreementUpdate db agreementid fn)) agreementid = Some after
    ∧ CurrentAgreementId after = CurrentAgreementId before
    ∧ AgreementProtocol after = AgreementProtocol before
    ∧ AgreementInceptionTime after = AgreementInceptionTime before
    ∧ AgreementCreationTime after = AgreementCreationTime updated
    ∧ Proposal after = Proposal updated
    ∧ DataVerificationURL after = DataVerificationURL updated
    ∧ DisableDataVerificationChecks after = DisableDataVerificationChecks updated
    ∧ ∀ key, key ≠ agreementid →
        bolt.Get (store (singleAgreementUpdate db agreementid fn)) AGREEMENTS key
        = bolt.Get db AGREEMENTS key.
Proof.
  intros Hbefore Hok Hrt.
  destruct (singleAgreementUpdate_success _ _ _ _ Hok) as (a & Hfind & -> & Hp & ->).
  destruct (persistUpdatedAgreement_stored _ _ _ _ Hbefore Hp Hrt) as [Hafter Hframe].
  exists (whole_member_replacements before (fn a)). by split_and!.
Qed.

(** C9. [singleAgreementUpdate] returns the error of the lookup when the
    lookup fails, and the unable-to-locate error when the lookup finds
    nothing; once a record is found, the transaction reads the key again and
    the update fails with the no-agreement error when the key is not there and
    with the unmarshal error when the bytes under it cannot be decoded.  In
    every one of these cases the store is left as it was. *)
Theorem singleAgreementUpdate_failures (db : bolt.DB) (agreementid : string)
    (fn : Agreement → Agreement) :
  (∀ found err,
     val (FindSingleAgreementByAgreementId db agreementid) = (found, Some err) →
     val (singleAgreementUpdate db agreementid fn) = (None, Some err)
     ∧ store (singleAgreementUpdate db agreementid fn) = db)
  ∧ (val (FindSingleAgreementByAgreementId db agreementid) = (None, None) →
     val (singleAgreementUpdate db agreementid fn)
     = (None, Some (UnableToLocateAgreement agreementid))
     ∧ store (singleAgreementUpdate db agreementid fn) = db)
  ∧ (∀ a,
     val (FindSingleAgreementByAgreementId db agreementid) = (Some a, None) →
     (bolt.Get db AGREEMENTS agreementid = None →
      val (singleAgreementUpdate db agreementid fn)
      = (Some (fn a), Some (NoAgreementToUpdate agreementid))
      ∧ store (singleAgreementUpdate db agreementid fn) = db)
     ∧ (∀ current,
        bolt.Get db AGREEMENTS agreementid = Some current →
        json_Unmarshal current = None →
        val (singleAgreementUpdate db agreementid fn)
        = (Some (fn a), Some (FailedToUnmarshal current))
        ∧ store (singleAgreementUpdate db agreementid fn) = db)).
Proof.
  pose proof (FindSingleAgreementByAgreementId_store db agreementid) as Hs.
  split_and!.
  - intros found err Hfind. unfold singleAgreementUpdate.
    destruct (FindSingleAgreementByAgreementId db agreementid) as [v s lg].
    simpl in *. subst. by destruct found.
  - intros Hfind. unfold singleAgreementUpdate.
    destruct (FindSingleAgreementByAgreementId db agreementid) as [v s lg].
    simpl in *. subst. done.
  - intros a Hfind.
    destruct (singleAgreementUpdate_found db agreementid fn a Hfind) as [-> ->].
    rewrite persistUpdatedAgreement_eq. split.
    + by intros ->.
    + by intros current -> ->.
Qed.

End update_claims.

(** ** Creation *)

Section create.
Context {T : Type} `{!Marshaler T}.

Lemma PersistNew_duplicate (db : bolt.DB) (pk bucket : string) (record : T) :
  pk ≠ "" → bucket ≠ "" → is_Some (bolt.Get db bucket pk) →
  PersistNew db pk bucket record = mkRet (Some (AlreadyContainsRecord bucket pk)) db [].
Proof.
  intros Hpk Hbucket Hsome. unfold PersistNew.
  rewrite !bool_decide_eq_false_2 by done. simpl. unfold bolt.Update.
  pose proof (Get_is_Some_bucket _ _ _ Hsome) as [b Hb].
  unfold bolt.CreateBucketIfNotExists. rewrite decide_False, Hb by done.
  by destruct Hsome as [existing ->].
Qed.

Lemma PersistNew_success (db : bolt.DB) (pk bucket : string) (record : T) :
  val (PersistNew db pk bucket record) = None →
  bolt.Get db bucket pk = None
  ∧ ∃ serialized, json_Marshal record = Some serialized
    ∧ ∀ key, bolt.Get (store (PersistNew db pk bucket record)) bucket key
             = if decide (key = pk) then Some serialized else bolt.Get db bucket key.
Proof.
  unfold PersistNew, bolt.Update.
  destruct (bool_decide (pk = "") || bool_decide (bucket = "")); [done|].
  destruct (bolt.CreateBucketIfNotExists db bucket) as [|tx] eqn:Htx; [done|].
  pose proof (Get_CreateBucketIfNotExists _ _ _ pk Htx) as (Hb & Hget & _).
  rewrite Hget.
  destruct (bolt.Get db bucket pk) as [existing|]; [done|].
  destruct (json_Marshal record) as [serialized|]; [|done].
  destruct (bolt.Put tx bucket pk serialized) as [|tx'] eqn:Hput; [done|].
  intros _. split; [done|]. exists serialized. split; [done|].
  intros key. simpl. rewrite (Get_Put _ _ _ _ _ key Hb Hput).
  case_decide; [done|].
  by destruct (Get_CreateBucketIfNotExists _ _ _ key Htx) as (_ & -> & _).
Qed.

End create.

Section consistency.
Context `{!Marshaler Agreement, !Unmarshaler Agreement}.

Lemma store_consistent_empty : store_consistent ∅.
Proof. intros key v a Hget. unfold bolt.Get in Hget. by rewrite lookup_empty in Hget. Qed.

(** Writing under a key a value that decodes to a record with that id keeps
    the store consistent. *)
Lemma store_consistent_write (db db' : bolt.DB) (id : string) (serialized : bytes) :
  store_consistent db →
  (∀ key, bolt.Get db' AGREEMENTS key
          = if decide (key = id) then Some serialized else bolt.Get db AGREEMENTS key) →
  (∀ a, json_Unmarshal serialized = Some a → CurrentAgreementId a = id) →
  store_consistent db'.
Proof.
  intros Hcons Hget Hid key v a Hv Hdec. rewrite Hget in Hv.
  case_decide as Hkey.
  - injection Hv as <-. subst. by apply Hid.
  - by eapply Hcons.
Qed.

Lemma AgreementAttempt_consistent (db : bolt.DB) (agreementid agreementProto : string)
    (now : Z) (a : Agreement) :
  store_consistent db →
  agreement agreementid agreementProto now = inr a →
  RoundTrips a →
  store_consistent (store (AgreementAttempt db agreementid agreementProto now)).
Proof.
  intros Hcons Ha Hrt. unfold AgreementAttempt. rewrite Ha.
  destruct (val (PersistNew db (CurrentAgreementId a) AGREEMENTS a)) as [err|] eqn:Hval.
  - unfold PersistNew, bolt.Update in *.
    repeat (case_match; simpl in *; try done).
  - destruct (PersistNew_success _ _ _ _ Hval) as (_ & serialized & Henc & Hget).
    eapply store_consistent_write; [done..|].
    intros a' Hdec. rewrite (RoundTrips_decode _ _ Hrt Henc) in Hdec. congruence.
Qed.

Lemma persistUpdatedAgreement_consistent (db : bolt.DB) (agreementid : string)
    (update before : Agreement) :
  store_consistent db →
  stored_agreement db agreementid = Some before →
  RoundTrips (whole_member_replacements before update) →
  store_consistent (store (persistUpdatedAgreement db agreementid update)).
Proof.
  intros Hcons Hbefore Hrt.
  destruct (val (persistUpdatedAgreement db agreementid update)) as [err|] eqn:Hval.
  - rewrite persistUpdatedAgreement_eq in *.
    repeat (case_match; simpl in *; try done).
  - destruct (persistUpdatedAgreement_success _ _ _ Hval)
      as (current & m & serialized & Hget & Hdec & Henc & Hstore).
    unfold stored_agreement in Hbefore. rewrite Hget in Hbefore. simpl in Hbefore.
    assert (m = before) as -> by congruence.
    eapply store_consistent_write; [done..|].
    intros a' Hdec'. rewrite (RoundTrips_decode _ _ Hrt Henc) in Hdec'.
    injection Hdec' as <-. simpl. by eapply Hcons.
Qed.

Lemma DeleteAgreement_consistent (db : bolt.DB) (pk : string) :
  store_consistent db → store_consistent (store (DeleteAgreement db pk)).
Proof.
  intros Hcons. unfold DeleteAgreement, bolt.Update.
  repeat (case_match; simpl in *; try done).
  intros key v a Hv Hdec. rewrite Get_Delete in Hv.
  case_decide; [done|]. by eapply Hcons.
Qed.

End consistency.

(** ** Creation, confirmation and deletion of an agreement *)

Section agreement_claims.
Context `{!Marshaler Agreement, !Unmarshaler Agreement}.

(** C3. When a record is already stored under a non-empty key of a bucket,
    [PersistNew] with that key and bucket (and any record of any type) returns
    the already-contains error, emits nothing and leaves the store, hence the
    record stored first, exactly as it was; so does [AgreementAttempt] with
    that key as the id and any non-empty protocol, for the agreements
    bucket. *)
Theorem create_existing_key_fails (db : bolt.DB) (pk bucket : string) :
  pk ≠ "" → bucket ≠ "" →
  is_Some (bolt.Get db bucket pk) →
  (∀ (T : Type) (M : Marshaler T) (record : T),
     PersistNew db pk bucket record
     = mkRet (Some (AlreadyContainsRecord bucket pk)) db [])
  ∧ (bucket = AGREEMENTS →
     ∀ (agreementProto : string) (now : Z), agreementProto ≠ "" →
       AgreementAttempt db pk agreementProto now
       = mkRet (Some (AlreadyContainsRecord AGREEMENTS pk)) db []).
Proof.
  intros Hpk Hbucket Hsome. split.
  - intros T M record. by apply PersistNew_duplicate.
  - intros -> agreementProto now Hproto. unfold AgreementAttempt, agreement.
    rewrite !bool_decide_eq_false_2 by done. simpl.
    by apply PersistNew_duplicate.
Qed.

(** C4, as amended.  In a store whose records sit under their own ids, for
    an id and a protocol that are not empty and whose factory record survives
    marshalling and unmarshalling, after a successful [AgreementAttempt] the
    lookup of the id returns the record the factory built: the id and the
    protocol as given, the inception time read from the clock, creation time
    0, empty proposal and data verification URL, checks not disabled.
    (The last section shows what happens without the two conditions.) *)
Theorem AgreementAttempt_then_find (db : bolt.DB) (agreementid agreementProto : string)
    (now : Z) :
  agreementid ≠ "" → agreementProto ≠ "" →
  store_consistent db →
  RoundTrips (mkAgreement agreementid agreementProto (uint64 now) 0 "" "" false) →
  val (AgreementAttempt db agreementid agreementProto now) = None →
  val (FindSingleAgreementByAgreementId
         (store (AgreementAttempt db agreementid agreementProto now)) agreementid)
  = (Some (mkAgreement agreementid agreementProto (uint64 now) 0 "" "" false), None).
Proof.
  intros Hid Hproto Hcons Hrt Hok.
  assert (agreement agreementid agreementProto now
          = inr (mkAgreement agreementid agreementProto (uint64 now) 0 "" "" false)) as Ha.
  { unfold agreement. by rewrite !bool_decide_eq_false_2 by done. }
  rewrite FindSingleAgreementByAgreementId_consistent
    by (by eapply AgreementAttempt_consistent).
  f_equal. revert Hok. unfold AgreementAttempt. rewrite Ha. simpl. intros Hok.
  destruct (PersistNew_success _ _ _ _ Hok) as (_ & serialized & Henc & Hget).
  unfold stored_agreement. rewrite Hget, decide_True by done. simpl.
  by apply RoundTrips_decode.
Qed.

(** Creation does succeed for a fresh id within the limits of the store. *)
Lemma AgreementAttempt_succeeds (db : bolt.DB) (agreementid agreementProto : string)
    (now : Z) (serialized : bytes) :
  agreementid ≠ "" → agreementProto ≠ "" →
  bolt.Get db AGREEMENTS agreementid = None →
  Z.of_nat (String.length agreementid) ≤ bolt.MaxKeySize →
  json_Marshal (mkAgreement agreementid agreementProto (uint64 now) 0 "" "" false)
  = Some serialized →
  Z.of_nat (String.length serialized) ≤ bolt.MaxValueSize →
  val (AgreementAttempt db agreementid agreementProto now) = None.
Proof.
  intros Hid Hproto Hfresh Hkey Henc Hvalue.
  unfold AgreementAttempt, agreement, PersistNew, bolt.Update.
  rewrite !bool_decide_eq_false_2 by done. simpl.
  rewrite bool_decide_eq_false_2 by done. simpl.
  destruct (CreateBucketIfNotExists_AGREEMENTS db) as [tx Htx]. rewrite Htx.
  destruct (Get_CreateBucketIfNotExists _ _ _ agreementid Htx) as (_ & -> & _).
  rewrite Hfresh, Henc. unfold bolt.Put.
  rewrite decide_False by done.
  destruct (bolt.MaxKeySize <? _) eqn:Hk; [apply Z.ltb_lt in Hk; lia|].
  destruct (bolt.MaxValueSize <? _) eqn:Hv; [apply Z.ltb_lt in Hv; lia|].
  done.
Qed.

Lemma uint64_pos (now : Z) : - 2 ^ 63 ≤ now < 2 ^ 63 → now ≠ 0 → 0 < uint64 now.
Proof.
  unfold uint64. intros Hrange Hne.
  destruct (Z.lt_ge_cases now 0).
  - rewrite <- (Z.mod_add now 1) by lia. rewrite Z.mod_small; lia.
  - rewrite Z.mod_small; lia.
Qed.

Lemma AgreementMade_eq (db : bolt.DB) (agreementid proposal url : string)
    (checks : bool) (now : Z) (ret : Agreement) :
  val (AgreementMade db agreementid proposal url checks now) = (Some ret, None) →
  val (singleAgreementUpdate db agreementid (AgreementMade_fn proposal url checks now))
  = (Some ret, None)
  ∧ store (AgreementMade db agreementid proposal url checks now)
    = store (singleAgreementUpdate db agreementid (AgreementMade_fn proposal url checks now)).
Proof.
  unfold AgreementMade.
  destruct (val (singleAgreementUpdate db agreementid _)) as [a [err|]]; [done|].
  simpl. by intros [= ->].
Qed.

(** C5, as amended.  In a store whose records sit under their own ids, after
    a successful [AgreementMade] at a clock reading other than zero whose
    returned record survives marshalling and unmarshalling, the lookup of
    the id returns a record with the proposal, the data verification URL and
    the flag given, a creation time above zero, and the agreement id,
    protocol and inception time of the record the lookup returned before the
    call.  (The last section shows what happens without each of the three
    conditions.) *)
Theorem AgreementMade_then_find (db : bolt.DB) (agreementid proposal url : string)
    (checks : bool) (now : Z) (ret : Agreement) :
  store_consistent db →
  - 2 ^ 63 ≤ now < 2 ^ 63 → now ≠ 0 →
  val (AgreementMade db agreementid proposal url checks now) = (Some ret, None) →
  RoundTrips ret →
  ∃ before after,
    val (FindSingleAgreementByAgreementId db agreementid) = (Some before, None)
    ∧ val (FindSingleAgreementByAgreementId
             (store (AgreementMade db agreementid proposal url checks now)) agreementid)
      = (Some after, None)
    ∧ Proposal after = proposal
    ∧ DataVerificationURL after = url
    ∧ DisableDataVerificationChecks after = checks
    ∧ 0 < AgreementCreationTime after
    ∧ CurrentAgreementId after = CurrentAgreementId before
    ∧ AgreementProtocol after = AgreementProtocol before
    ∧ AgreementInceptionTime after = AgreementInceptionTime before.
Proof.
  intros Hcons Hrange Hne Hok Hrt.
  destruct (AgreementMade_eq _ _ _ _ _ _ _ Hok) as [Hupd ->].
  destruct (singleAgreementUpdate_success _ _ _ _ Hupd) as (before & Hfind & -> & Hp & ->).
  pose proof Hfind as Hbefore.
  rewrite FindSingleAgreementByAgreementId_consistent in Hbefore by done.
  injection Hbefore as Hbefore.
  assert (whole_member_replacements before (AgreementMade_fn proposal url checks now before)
          = AgreementMade_fn proposal url checks now before) as Hsame by done.
  rewrite <- Hsame in Hrt.
  destruct (persistUpdatedAgreement_stored _ _ _ _ Hbefore Hp Hrt) as [Hafter _].
  exists before, (AgreementMade_fn proposal url checks now before).
  split; [done|]. split.
  - rewrite FindSingleAgreementByAgreementId_consistent
      by (by eapply persistUpdatedAgreement_consistent).
    by rewrite Hafter, Hsame.
  - simpl. split_and!; try done. by apply uint64_pos.
Qed.


(** C7. [DeleteAgreement] returns the missing-argument error for an empty id
    and, for a non-empty one, the unknown-bucket error when the agreements
    bucket was never created.  For a non-empty id with no record under it in
    an existing bucket it logs that the record does not exist and returns nil
    with the store as it was, so that deleting the same id again does the
    same. *)
Theorem DeleteAgreement_absent_record (db : bolt.DB) (pk : string) :
  (pk = "" → DeleteAgreement db pk = mkRet (Some MissingRequiredArgPk) db [])
  ∧ (pk ≠ "" → bolt.Bucket_ db AGREEMENTS = None →
     DeleteAgreement db pk = mkRet (Some (UnknownBucket AGREEMENTS)) db [])
  ∧ (pk ≠ "" → is_Some (bolt.Bucket_ db AGREEMENTS) →
     bolt.Get db AGREEMENTS pk = None →
     DeleteAgreement db pk = mkRet None db [Errorf (RecordDoesNotExist pk)]
     ∧ DeleteAgreement (store (DeleteAgreement db pk)) pk
       = mkRet None db [Errorf (RecordDoesNotExist pk)]).
Proof.
  unfold DeleteAgreement, bolt.Update. split_and!.
  - intros ->. done.
  - intros Hpk ->. by rewrite bool_decide_eq_false_2.
  - intros Hpk [b Hb] Hget. rewrite bool_decide_eq_false_2 by done.
    rewrite Hb, Hget. simpl. by rewrite Hb, Hget.
Qed.

Lemma AgreementUpdate_eq (db : bolt.DB) (agreementid proposal url : string)
    (checks : bool) (now : Z) :
  AgreementUpdate db agreementid proposal url checks now
  = AgreementMade db agreementid proposal url checks now.
Proof. reflexivity. Qed.

End agreement_claims.

(** * The theorems at work on concrete stores *)

Section worked.
#[local] Existing Instance LineCodec.Marshal_Agreement.
#[local] Existing Instance LineCodec.Unmarshal_Agreement.


Ltac run := vm_compute; reflexivity.
Ltac round_trip := eexists; split; vm_compute; reflexivity.

Lemma one_consistent : store_consistent Stores.one.
Proof.
  eapply AgreementAttempt_consistent;
    [apply store_consistent_empty | run | round_trip].
Defined.

Lemma singleAgreementUpdate_keeps_immutable_fields_witness :
  let db := Stores.one in
  let before := Stores.agr1 in
  let updated := Stores.overwrite_all Stores.agr1 in
  stored_agreement db "agr-1" = Some before
  ∧ val (singleAgreementUpdate db "agr-1" Stores.overwrite_all) = (Some updated, None)
  ∧ RoundTrips (whole_member_replacements before updated)
  ∧ ∃ after,
      stored_agreement (store (singleAgreementUpdate db "agr-1" Stores.overwrite_all)) "agr-1"
      = Some after
      ∧ CurrentAgreementId after = CurrentAgreementId before
      ∧ AgreementProtocol after = AgreementProtocol before
      ∧ AgreementInceptionTime after = AgreementInceptionTime before
      ∧ AgreementCreationTime after = AgreementCreationTime updated
      ∧ Proposal after = Proposal updated
      ∧ DataVerificationURL after = DataVerificationURL updated
      ∧ DisableDataVerificationChecks after = DisableDataVerificationChecks updated
      ∧ ∀ key, key ≠ "agr-1" →
          bolt.Get (store (singleAgreementUpdate db "agr-1" Stores.overwrite_all))
                   AGREEMENTS key
          = bolt.Get db AGREEMENTS key.
Proof.
  intros db before updated.
  assert (stored_agreement db "agr-1" = Some before) as H1 by run.
  assert (val (singleAgreementUpdate db "agr-1" Stores.overwrite_all)
          = (Some updated, None)) as H2 by run.
  assert (RoundTrips (whole_member_replacements before updated)) as H3 by round_trip.
  split_and!; [exact H1 | exact H2 | exact H3 |].
  exact (singleAgreementUpdate_keeps_immutable_fields
           db "agr-1" Stores.overwrite_all before updated H1 H2 H3).
Defined.

Lemma create_existing_key_fails_witness :
  "agr-1" ≠ "" ∧ AGREEMENTS ≠ ""
  ∧ is_Some (bolt.Get Stores.one AGREEMENTS "agr-1")
  ∧ (∀ (T : Type) (M : Marshaler T) (record : T),
       PersistNew Stores.one "agr-1" AGREEMENTS record
       = mkRet (Some (AlreadyContainsRecord AGREEMENTS "agr-1")) Stores.one [])
  ∧ (AGREEMENTS = AGREEMENTS →
     ∀ (agreementProto : string) (now : Z), agreementProto ≠ "" →
       AgreementAttempt Stores.one "agr-1" agreementProto now
       = mkRet (Some (AlreadyContainsRecord AGREEMENTS "agr-1")) Stores.one []).
Proof.
  assert ("agr-1" ≠ "") as H1 by discriminate.
  assert (AGREEMENTS ≠ "") as H2 by discriminate.
  assert (is_Some (bolt.Get Stores.one AGREEMENTS "agr-1")) as H3
    by (eexists; run).
  split_and!; [exact H1 | exact H2 | exact H3 | |];
    apply (create_existing_key_fails Stores.one "agr-1" AGREEMENTS H1 H2 H3).
Defined.

Lemma AgreementAttempt_then_find_witness :
  "agr-1" ≠ "" ∧ "proto-v1" ≠ ""
  ∧ store_consistent ∅
  ∧ RoundTrips (mkAgreement "agr-1" "proto-v1" (uint64 1500000000) 0 "" "" false)
  ∧ val (AgreementAttempt ∅ "agr-1" "proto-v1" 1500000000) = None
  ∧ val (FindSingleAgreementByAgreementId
           (store (AgreementAttempt ∅ "agr-1" "proto-v1" 1500000000)) "agr-1")
    = (Some (mkAgreement "agr-1" "proto-v1" (uint64 1500000000) 0 "" "" false), None).
Proof.
  assert ("agr-1" ≠ "") as H1 by discriminate.
  assert ("proto-v1" ≠ "") as H2 by discriminate.
  assert (RoundTrips (mkAgreement "agr-1" "proto-v1" (uint64 1500000000) 0 "" "" false))
    as H3 by round_trip.
  assert (val (AgreementAttempt ∅ "agr-1" "proto-v1" 1500000000) = None) as H4 by run.
  split_and!; [exact H1 | exact H2 | apply store_consistent_empty | exact H3 | exact H4 |].
  exact (AgreementAttempt_then_find ∅ "agr-1" "proto-v1" 1500000000
           H1 H2 store_consistent_empty H3 H4).
Defined.

Lemma AgreementMade_then_find_witness :
  let db := Stores.one in
  let ret := mkAgreement "agr-1" "proto-v1" 1500000000 1500000100 "P" "U" true in
  store_consistent db
  ∧ - 2 ^ 63 ≤ 1500000100 < 2 ^ 63 ∧ 1500000100 ≠ 0
  ∧ val (AgreementMade db "agr-1" "P" "U" true 1500000100) = (Some ret, None)
  ∧ RoundTrips ret
  ∧ ∃ before after,
      val (FindSingleAgreementByAgreementId db "agr-1") = (Some before, None)
      ∧ val (FindSingleAgreementByAgreementId
               (store (AgreementMade db "agr-1" "P" "U" true 1500000100)) "agr-1")
        = (Some after, None)
      ∧ Proposal after = "P"
      ∧ DataVerificationURL after = "U"
      ∧ DisableDataVerificationChecks after = true
      ∧ 0 < AgreementCreationTime after
      ∧ CurrentAgreementId after = CurrentAgreementId before
      ∧ AgreementProtocol after = AgreementProtocol before
      ∧ AgreementInceptionTime after = AgreementInceptionTime before.
Proof.
  intros db ret.
  assert (- 2 ^ 63 ≤ 1500000100 < 2 ^ 63) as H1 by lia.
  assert (1500000100 ≠ 0) as H2 by lia.
  assert (val (AgreementMade db "agr-1" "P" "U" true 1500000100) = (Some ret, None))
    as H3 by run.
  assert (RoundTrips ret) as H4 by round_trip.
  split_and!; [exact one_consistent | apply H1 | apply H1 | exact H2 | exact H3 | exact H4 |].
  exact (AgreementMade_then_find db "agr-1" "P" "U" true 1500000100 ret
           one_consistent H1 H2 H3 H4).
Defined.


(** The stored record and the returned one after a transformation that
    overwrites every field: they differ in the three immutable fields. *)
Example overwrite_all_stored_and_returned :
  let r := singleAgreementUpdate Stores.one "agr-1" Stores.overwrite_all in
  val r = (Some (mkAgreement "agr-9" "proto-v9" 9 42 "new-proposal" "http://verify" true),
           None)
  ∧ stored_agreement (store r) "agr-1"
    = Some (mkAgreement "agr-1" "proto-v1" 1500000000 42 "new-proposal" "http://verify" true).
Proof. split; run. Qed.

(** A scan of a store with bytes that are no record: the record after them
    is returned, and the log has the error followed by the record's entry. *)
Example scan_of_corrupt_store :
  val (FindAgreements Stores.corrupt [])
  = ([mkAgreement "b" "proto-v1" 5 0 "" "" false], None)
  ∧ logged (FindAgreements Stores.corrupt [])
    = [Errorf (UnableToDeserializeRecord "not a record");
       Infof 5 (DemarshalledAgreement (mkAgreement "b" "proto-v1" 5 0 "" "" false))].
Proof. split; run. Qed.

(** The record [b] passes its id filter alone and is excluded once a filter
    that rejects everything is added. *)
Example scan_with_rejecting_filter :
  (val (FindAgreements Stores.corrupt [IdAFilter "b"])).1
  = [mkAgreement "b" "proto-v1" 5 0 "" "" false]
  ∧ (val (FindAgreements Stores.corrupt [IdAFilter "b"; λ _, false])).1 = [].
Proof. split; run. Qed.

Example lookup_of_ambiguous_id :
  val (FindSingleAgreementByAgreementId Stores.ambiguous "dup")
  = (None, Some (ExpectedOnlyOneRecord "dup"
                   [mkAgreement "dup" "proto-v1" 5 0 "" "" false;
                    mkAgreement "dup" "proto-v2" 6 0 "" "" false])).
Proof. run. Qed.

Example lookup_of_unknown_id :
  val (FindSingleAgreementByAgreementId Stores.one "agr-2") = (None, None)
  ∧ val (FindSingleAgreementByAgreementId ∅ "agr-2") = (None, None).
Proof. split; run. Qed.

(** The record found by its agreement id is not under that key, or the bytes
    under that key are no record: the transaction reports it. *)
Example update_of_displaced_records :
  (val (singleAgreementUpdate Stores.displaced "x" Stores.overwrite_all)).2
  = Some (NoAgreementToUpdate "x")
  ∧ (val (singleAgreementUpdate Stores.displaced "z" Stores.overwrite_all)).2
    = Some (FailedToUnmarshal "not a record")
  ∧ (val (singleAgreementUpdate Stores.displaced "q" Stores.overwrite_all)).2
    = Some (UnableToLocateAgreement "q")
  ∧ val (singleAgreementUpdate Stores.ambiguous "dup" Stores.overwrite_all)
    = val (FindSingleAgreementByAgreementId Stores.ambiguous "dup").
Proof. split_and!; run. Qed.

Example delete_twice :
  val (DeleteAgreement Stores.one "agr-2") = None
  ∧ val (DeleteAgreement (store (DeleteAgreement Stores.one "agr-2")) "agr-2") = None
  ∧ val (DeleteAgreement Stores.one "") = Some MissingRequiredArgPk
  ∧ val (DeleteAgreement ∅ "agr-2") = Some (UnknownBucket AGREEMENTS).
Proof. split_and!; run. Qed.

(** Create, look up, confirm, look up, delete, look up. *)
Example life_of_an_agreement :
  let db1 := store (AgreementAttempt ∅ "agr-1" "proto-v1" 1500000000) in
  let db2 := store (AgreementMade db1 "agr-1" "new-proposal" "http://verify" false 1500000100) in
  let db3 := store (DeleteAgreement db2 "agr-1") in
  val (FindSingleAgreementByAgreementId db1 "agr-1")
  = (Some (mkAgreement "agr-1" "proto-v1" 1500000000 0 "" "" false), None)
  ∧ val (FindSingleAgreementByAgreementId db2 "agr-1")
    = (Some (mkAgreement "agr-1" "proto-v1" 1500000000 1500000100
                         "new-proposal" "http://verify" false), None)
  ∧ val (DeleteAgreement db2 "agr-1") = None
  ∧ val (FindSingleAgreementByAgreementId db3 "agr-1") = (None, None).
Proof. split_and!; run. Qed.

End worked.

(** * Further properties of the persistence layer *)

(** ** Buckets other than the one written *)

Section frames.

Lemma lookup_CreateBucketIfNotExists_ne (tx tx' : bolt.DB) (name other : string) :
  bolt.CreateBucketIfNotExists tx name = inr tx' → other ≠ name →
  tx' !! other = tx !! other.
Proof.
  unfold bolt.CreateBucketIfNotExists.
  destruct (decide (name = "")); [done|].
  destruct (tx !! name); intros [= <-] Hne; [done|].
  by rewrite lookup_insert_ne.
Qed.

Lemma lookup_Put_ne (tx tx' : bolt.DB) (name key value other : string) :
  bolt.Put tx name key value = inr tx' → other ≠ name → tx' !! other = tx !! other.
Proof.
  unfold bolt.Put. intros Hput Hne.
  repeat case_match; try done. injection Hput as <-.
  by rewrite lookup_alter_ne.
Qed.

Lemma Put_is_Some (tx tx' : bolt.DB) (name key value other : string) :
  bolt.Put tx name key value = inr tx' → is_Some (tx' !! other) ↔ is_Some (tx !! other).
Proof.
  unfold bolt.Put. intros Hput.
  repeat case_match; try done. injection Hput as <-.
  destruct (decide (name = other)) as [->|Hne].
  - rewrite lookup_alter_eq. by rewrite fmap_is_Some.
  - by rewrite lookup_alter_ne.
Qed.

Lemma lookup_Delete_ne (tx : bolt.DB) (name key other : string) :
  other ≠ name → bolt.Delete tx name key !! other = tx !! other.
Proof. intros Hne. unfold bolt.Delete. by rewrite lookup_alter_ne. Qed.

End frames.

(** ** Deletion *)

Section deletion.
Context `{!Marshaler Agreement, !Unmarshaler Agreement}.

(** X1. [DeleteAgreement] of a non-empty key that holds a value returns nil
    and removes the key, whether or not the value can be decoded; the other
    keys of the bucket and the other buckets stay as they were.  The log has
    the deserialization error when the value is no record, the warning
    when the record has an agreement id, and nothing otherwise. *)
Theorem DeleteAgreement_removes_record (db : bolt.DB) (pk existing : string) :
  pk ≠ "" →
  bolt.Get db AGREEMENTS pk = Some existing →
  val (DeleteAgreement db pk) = None
  ∧ bolt.Get (store (DeleteAgreement db pk)) AGREEMENTS pk = None
  ∧ (∀ key, key ≠ pk →
       bolt.Get (store (DeleteAgreement db pk)) AGREEMENTS key = bolt.Get db AGREEMENTS key)
  ∧ (∀ name, name ≠ AGREEMENTS → store (DeleteAgreement db pk) !! name = db !! name)
  ∧ logged (DeleteAgreement db pk)
    = match json_Unmarshal existing with
      | None => [Errorf ErrorDeserializingAgreement]
      | Some record =>
        if bool_decide (CurrentAgreementId record = "") then []
        else [Errorf DeletingRecordWithAgreementId]
      end.
Proof.
  intros Hpk Hget. unfold DeleteAgreement, bolt.Update.
  rewrite bool_decide_eq_false_2 by done.
  destruct (Get_is_Some_bucket db AGREEMENTS pk) as [b Hb]; [eauto|].
  unfold bolt.Bucket_. rewrite Hb, Hget. simpl. split_and!.
  - done.
  - rewrite Get_Delete. by rewrite decide_True.
  - intros key Hne. rewrite Get_Delete. by rewrite decide_False.
  - intros name Hne. by apply lookup_Delete_ne.
  - destruct (json_Unmarshal existing) as [record|]; [|done].
    destruct (decide (CurrentAgreementId record = "")) as [He|He].
    + rewrite bool_decide_eq_false_2 by (by intros ?).
      by rewrite bool_decide_eq_true_2.
    + rewrite bool_decide_eq_true_2 by done.
      by rewrite bool_decide_eq_false_2.
Qed.

(** X2. In a store whose records sit under their own ids, after
    [DeleteAgreement] of a non-empty id the lookup of that id returns nil and
    no error, whether the id was stored before or not. *)
Theorem DeleteAgreement_then_find (db : bolt.DB) (pk : string) :
  store_consistent db →
  pk ≠ "" →
  val (FindSingleAgreementByAgreementId (store (DeleteAgreement db pk)) pk) = (None, None).
Proof.
  intros Hcons Hpk.
  rewrite FindSingleAgreementByAgreementId_consistent
    by (by apply DeleteAgreement_consistent).
  f_equal. unfold stored_agreement, DeleteAgreement, bolt.Update.
  rewrite bool_decide_eq_false_2 by done.
  unfold bolt.Bucket_.
  destruct (db !! AGREEMENTS) as [b|] eqn:Hb; simpl.
  - destruct (bolt.Get db AGREEMENTS pk) as [existing|] eqn:Hget; simpl.
    + rewrite Get_Delete. by rewrite decide_True.
    + by rewrite Hget.
  - unfold bolt.Get. by rewrite Hb.
Qed.

End deletion.

(** ** Creation, in full *)

Section creation.
Context `{!Marshaler Agreement, !Unmarshaler Agreement}.

Lemma Put_inr_iff (tx : bolt.DB) (name key value : string) :
  (∃ tx', bolt.Put tx name key value = inr tx')
  ↔ key ≠ "" ∧ Z.of_nat (String.length key) ≤ bolt.MaxKeySize
    ∧ Z.of_nat (String.length value) ≤ bolt.MaxValueSize.
Proof.
  unfold bolt.Put. destruct (decide (key = "")) as [->|Hkey].
  { split; [by intros [? ?]|by intros [? _]]. }
  destruct (bolt.MaxKeySize <? _) eqn:Hk.
  { apply Z.ltb_lt in Hk. split; [by intros [? ?]|]. intros (_ & ? & _). lia. }
  destruct (bolt.MaxValueSize <? _) eqn:Hv.
  { apply Z.ltb_lt in Hv. split; [by intros [? ?]|]. intros (_ & _ & ?). lia. }
  apply Z.ltb_ge in Hk, Hv. split; [done|eauto].
Qed.

(** X3. [AgreementAttempt] returns nil exactly when the id and the protocol
    are not empty, no value is stored under the id, the id is no longer than
    the store's maximal key size, and the record the factory builds can be
    marshalled to a value no longer than the store's maximal value size. *)
Theorem AgreementAttempt_succeeds_iff (db : bolt.DB) (agreementid agreementProto : string)
    (now : Z) :
  val (AgreementAttempt db agreementid agreementProto now) = None
  ↔ agreementid ≠ "" ∧ agreementProto ≠ ""
    ∧ bolt.Get db AGREEMENTS agreementid = None
    ∧ Z.of_nat (String.length agreementid) ≤ bolt.MaxKeySize
    ∧ ∃ serialized,
        json_Marshal (mkAgreement agreementid agreementProto (uint64 now) 0 "" "" false)
        = Some serialized
        ∧ Z.of_nat (String.length serialized) ≤ bolt.MaxValueSize.
Proof.
  split.
  - unfold AgreementAttempt, agreement.
    destruct (decide (agreementid = "")) as [->|Hid]; [done|].
    destruct (decide (agreementProto = "")) as [->|Hproto].
    { rewrite (bool_decide_eq_true_2 ("" = "")) by done. by rewrite orb_true_r. }
    rewrite !bool_decide_eq_false_2 by done. simpl.
    unfold PersistNew, bolt.Update. rewrite !bool_decide_eq_false_2 by done. simpl.
    destruct (CreateBucketIfNotExists_AGREEMENTS db) as [tx Htx]. rewrite Htx.
    destruct (Get_CreateBucketIfNotExists _ _ _ agreementid Htx) as (_ & -> & _).
    destruct (bolt.Get db AGREEMENTS agreementid); [done|].
    destruct (json_Marshal _) as [serialized|]; [|done].
    destruct (bolt.Put tx AGREEMENTS agreementid serialized) as [|tx'] eqn:Hput; [done|].
    intros _.
    destruct (proj1 (Put_inr_iff tx AGREEMENTS agreementid serialized)) as (_ & ? & ?);
      [eauto|].
    split_and!; eauto.
  - intros (Hid & Hproto & Hfresh & Hkey & serialized & Henc & Hvalue).
    by eapply AgreementAttempt_succeeds.
Qed.

End creation.

Section atomicity.
Context `{!Marshaler Agreement, !Unmarshaler Agreement}.

Lemma Update_failed {E : Type} (db : bolt.DB) (fn : bolt.DB → Ret (option E)) :
  val (bolt.Update db fn) ≠ None → store (bolt.Update db fn) = db.
Proof. unfold bolt.Update. by destruct (val (fn db)) eqn:Hv; [|rewrite Hv]. Qed.

Lemma PersistNew_failed {T : Type} `{!Marshaler T} (db : bolt.DB) (pk bucket : string)
    (record : T) :
  val (PersistNew db pk bucket record) ≠ None → store (PersistNew db pk bucket record) = db.
Proof.
  unfold PersistNew.
  destruct (bool_decide (pk = "") || bool_decide (bucket = "")); [done|].
  apply Update_failed.
Qed.

(** X4. A write that returns an error leaves the store exactly as it was:
    [PersistNew] (the bucket it may have created is gone with the rest of the
    transaction), [AgreementAttempt], [persistUpdatedAgreement],
    [singleAgreementUpdate], [AgreementMade] and [DeleteAgreement]. *)
Theorem failed_write_leaves_store (db : bolt.DB) :
  (∀ (T : Type) (M : Marshaler T) (pk bucket : string) (record : T),
     val (PersistNew db pk bucket record) ≠ None →
     store (PersistNew db pk bucket record) = db)
  ∧ (∀ agreementid agreementProto now,
       val (AgreementAttempt db agreementid agreementProto now) ≠ None →
       store (AgreementAttempt db agreementid agreementProto now) = db)
  ∧ (∀ agreementid update,
       val (persistUpdatedAgreement db agreementid update) ≠ None →
       store (persistUpdatedAgreement db agreementid update) = db)
  ∧ (∀ agreementid fn,
       (val (singleAgreementUpdate db agreementid fn)).2 ≠ None →
       store (singleAgreementUpdate db agreementid fn) = db)
  ∧ (∀ agreementid proposal url checks now,
       (val (AgreementMade db agreementid proposal url checks now)).2 ≠ None →
       store (AgreementMade db agreementid proposal url checks now) = db)
  ∧ (∀ pk, val (DeleteAgreement db pk) ≠ None → store (DeleteAgreement db pk) = db).
Proof.
  assert (∀ agreementid fn,
            (val (singleAgreementUpdate db agreementid fn)).2 ≠ None →
            store (singleAgreementUpdate db agreementid fn) = db) as Hsingle.
  { intros agreementid fn. unfold singleAgreementUpdate.
    pose proof (FindSingleAgreementByAgreementId_store db agreementid) as Hs.
    destruct (FindSingleAgreementByAgreementId db agreementid) as [[[a|] [err|]] s lg];
      simpl in *; subst; try done.
    apply Update_failed. }
  split_and!.
  - intros T M pk bucket record. apply PersistNew_failed.
  - intros agreementid agreementProto now. unfold AgreementAttempt.
    destruct (agreement agreementid agreementProto now) as [err|a]; [done|].
    apply PersistNew_failed.
  - intros agreementid update. apply Update_failed.
  - done.
  - intros agreementid proposal url checks now. unfold AgreementMade.
    specialize (Hsingle agreementid (AgreementMade_fn proposal url checks now)).
    destruct (singleAgreementUpdate db agreementid _) as [[a [err|]] s lg];
      simpl in *; [|done].
    intros _. by apply Hsingle.
  - intros pk. unfold DeleteAgreement.
    destruct (bool_decide (pk = "")); [done|]. apply Update_failed.
Qed.

End atomicity.

Section persist_new.
Context {T : Type} `{!Marshaler T}.

(** X5. After a successful [PersistNew] the key holds the marshalled record,
    no value was under the key before, and every other key of the bucket and
    every other bucket is as it was. *)
Theorem PersistNew_writes (db : bolt.DB) (pk bucket : string) (record : T) :
  val (PersistNew db pk bucket record) = None →
  bolt.Get db bucket pk = None
  ∧ (∃ serialized,
       json_Marshal record = Some serialized
       ∧ bolt.Get (store (PersistNew db pk bucket record)) bucket pk = Some serialized)
  ∧ (∀ key, key ≠ pk →
       bolt.Get (store (PersistNew db pk bucket record)) bucket key = bolt.Get db bucket key)
  ∧ (∀ name, name ≠ bucket → store (PersistNew db pk bucket record) !! name = db !! name).
Proof.
  intros Hok.
  destruct (PersistNew_success _ _ _ _ Hok) as (Hfresh & serialized & Henc & Hget).
  split_and!.
  - done.
  - exists serialized. split; [done|]. rewrite Hget. by rewrite decide_True.
  - intros key Hne. rewrite Hget. by rewrite decide_False.
  - intros name Hne. revert Hok. unfold PersistNew, bolt.Update.
    destruct (bool_decide (pk = "") || bool_decide (bucket = "")); [done|].
    destruct (bolt.CreateBucketIfNotExists db bucket) as [|tx] eqn:Htx; [done|].
    destruct (bolt.Get tx bucket pk); [done|].
    destruct (json_Marshal record) as [s|]; [|done].
    destruct (bolt.Put tx bucket pk s) as [|tx'] eqn:Hput; [done|].
    intros _. simpl.
    rewrite (lookup_Put_ne _ _ _ _ _ _ Hput Hne).
    by eapply lookup_CreateBucketIfNotExists_ne.
Qed.

End persist_new.

(** ** The store invariant and the lookup *)

Section invariant.
Context `{!Marshaler Agreement, !Unmarshaler Agreement}.

Lemma singleAgreementUpdate_store (db : bolt.DB) (agreementid : string)
    (fn : Agreement → Agreement) :
  store (singleAgreementUpdate db agreementid fn) = db
  ∨ ∃ a, val (FindSingleAgreementByAgreementId db agreementid) = (Some a, None)
         ∧ store (singleAgreementUpdate db agreementid fn)
           = store (persistUpdatedAgreement db agreementid (fn a)).
Proof.
  unfold singleAgreementUpdate.
  pose proof (FindSingleAgreementByAgreementId_store db agreementid) as Hs.
  destruct (FindSingleAgreementByAgreementId db agreementid) as [[[a|] [err|]] s lg];
    simpl in *; subst; eauto.
Qed.

Lemma AgreementMade_store (db : bolt.DB) (agreementid proposal url : string)
    (checks : bool) (now : Z) :
  store (AgreementMade db agreementid proposal url checks now)
  = store (singleAgreementUpdate db agreementid (AgreementMade_fn proposal url checks now)).
Proof.
  unfold AgreementMade.
  by destruct (val (singleAgreementUpdate db agreementid _)) as [a [err|]].
Qed.

(** X6. The operations on agreements keep every decodable record under its
    own agreement id: [AgreementAttempt] and [AgreementMade] when the record
    they write survives marshalling and unmarshalling, [DeleteAgreement]
    always. *)
Theorem store_consistent_preserved (db : bolt.DB) :
  store_consistent db →
  (∀ agreementid agreementProto now,
     (∀ a, agreement agreementid agreementProto now = inr a → RoundTrips a) →
     store_consistent (store (AgreementAttempt db agreementid agreementProto now)))
  ∧ (∀ agreementid proposal url checks now,
       (∀ before, stored_agreement db agreementid = Some before →
                  RoundTrips (AgreementMade_fn proposal url checks now before)) →
       store_consistent (store (AgreementMade db agreementid proposal url checks now)))
  ∧ (∀ pk, store_consistent (store (DeleteAgreement db pk))).
Proof.
  intros Hcons. split_and!.
  - intros agreementid agreementProto now Hrt.
    destruct (agreement agreementid agreementProto now) as [err|a] eqn:Ha.
    + unfold AgreementAttempt. by rewrite Ha.
    + eapply AgreementAttempt_consistent; eauto.
  - intros agreementid proposal url checks now Hrt. rewrite AgreementMade_store.
    destruct (singleAgreementUpdate_store db agreementid
                (AgreementMade_fn proposal url checks now)) as [->|(a & Hfind & ->)]; [done|].
    rewrite FindSingleAgreementByAgreementId_consistent in Hfind by done.
    injection Hfind as Hbefore.
    eapply persistUpdatedAgreement_consistent; [done..|].
    by apply Hrt.
  - intros pk. by apply DeleteAgreement_consistent.
Qed.

(** X7. In a store whose records sit under their own ids the lookup by
    agreement id is the lookup by key: it returns the decoded value under the
    key, or nil when there is none or it cannot be decoded, and never the
    error for several matches; a record it returns has the id asked for. *)
Theorem FindSingleAgreementByAgreementId_by_key (db : bolt.DB) (agreementid : string) :
  store_consistent db →
  val (FindSingleAgreementByAgreementId db agreementid)
  = (bolt.Get db AGREEMENTS agreementid ≫= json_Unmarshal, None)
  ∧ ∀ a, (val (FindSingleAgreementByAgreementId db agreementid)).1 = Some a →
         CurrentAgreementId a = agreementid.
Proof.
  intros Hcons. rewrite FindSingleAgreementByAgreementId_consistent by done.
  split; [done|]. unfold stored_agreement. simpl. intros a Ha.
  destruct (bolt.Get db AGREEMENTS agreementid) as [v|] eqn:Hget; [|done].
  by eapply Hcons.
Qed.

Lemma AgreementMade_failed (db : bolt.DB) (agreementid proposal url : string)
    (checks : bool) (now : Z) (ret : option Agreement) (err : Error) :
  val (AgreementMade db agreementid proposal url checks now) = (ret, Some err) →
  ret = None ∧ store (AgreementMade db agreementid proposal url checks now) = db.
Proof.
  unfold AgreementMade, singleAgreementUpdate.
  pose proof (FindSingleAgreementByAgreementId_store db agreementid) as Hs.
  destruct (FindSingleAgreementByAgreementId db agreementid) as [[[a|] [e|]] s lg];
    simpl in *; subst; try by intros [= <- <-].
  pose proof (Update_failed (E:=Error) db) as Hfailed.
  unfold persistUpdatedAgreement.
  destruct (val (bolt.Update db _)) as [e|] eqn:Hval; simpl; [|done].
  intros [= <- <-]. split; [done|]. apply Hfailed. by rewrite Hval.
Qed.

(** X8. [AgreementMade] returns either a record and no error or an error and
    no record, and in the second case the store is as it was.  (Its helper
    [singleAgreementUpdate] does return both when the transaction fails.) *)
Theorem AgreementMade_record_or_error (db : bolt.DB) (agreementid proposal url : string)
    (checks : bool) (now : Z) :
  (∃ a, val (AgreementMade db agreementid proposal url checks now) = (Some a, None))
  ∨ (∃ err, val (AgreementMade db agreementid proposal url checks now) = (None, Some err)
            ∧ store (AgreementMade db agreementid proposal url checks now) = db).
Proof.
  destruct (val (AgreementMade db agreementid proposal url checks now))
    as [ret [err|]] eqn:Hval.
  - right. exists err. destruct (AgreementMade_failed _ _ _ _ _ _ _ _ Hval) as [-> Hs].
    done.
  - left. revert Hval. unfold AgreementMade, singleAgreementUpdate.
    destruct (FindSingleAgreementByAgreementId db agreementid) as [[[a|] [e|]] s lg];
      simpl; try done.
    destruct (val (persistUpdatedAgreement s agreementid _)); simpl; [done|].
    intros [= <-]. eauto.
Qed.

End invariant.

(** ** Filters and scan order *)

Section filters.
Context `{!Marshaler Agreement, !Unmarshaler Agreement}.

Lemma Ret_eq {A : Type} (r1 r2 : Ret A) :
  val r1 = val r2 → store r1 = store r2 → logged r1 = logged r2 → r1 = r2.
Proof. destruct r1, r2. simpl. by intros -> -> ->. Qed.

Lemma FindAgreements_eq (db : bolt.DB) (fs1 fs2 : list AFilter) :
  (∀ a, passes fs1 a ↔ passes fs2 a) → FindAgreements db fs1 = FindAgreements db fs2.
Proof.
  intros Hsame. apply Ret_eq.
  - rewrite !FindAgreements_val. f_equal. by apply list_filter_iff.
  - by rewrite !FindAgreements_store.
  - by rewrite !FindAgreements_logged.
Qed.

(** X9. Scanning with the filters [fs1 ++ fs2] is scanning with [fs1] and
    keeping the records that pass [fs2]; the order of the filters and their
    repetition do not matter, neither for the result nor for the log; and with
    no filter every decodable record is returned. *)
Theorem FindAgreements_filters_compose (db : bolt.DB) (fs1 fs2 : list AFilter) :
  (val (FindAgreements db (fs1 ++ fs2))).1
  = filter (passes fs2) (val (FindAgreements db fs1)).1
  ∧ (∀ fs : list AFilter,
       (∀ filterFn, filterFn ∈ fs ↔ filterFn ∈ fs1) →
       FindAgreements db fs = FindAgreements db fs1)
  ∧ (val (FindAgreements db [])).1 = stored_agreements db.
Proof.
  split_and!.
  - rewrite !FindAgreements_val. simpl. rewrite list_filter_filter.
    apply list_filter_iff. intros a. unfold passes. rewrite Forall_app. tauto.
  - intros fs Hfs. apply FindAgreements_eq. intros a. unfold passes.
    rewrite !Forall_forall. split; intros H f Hf; apply H; by apply Hfs.
  - rewrite FindAgreements_val. simpl.
    induction (stored_agreements db) as [|a l IH]; [done|].
    rewrite filter_cons_True by (by constructor). by rewrite IH.
Qed.

Lemma key_order_total : Total (λ x y : string * string, String.le x.1 y.1).
Proof. intros x y. apply (total String.le). Qed.

Lemma key_order_trans : Transitive (λ x y : string * string, String.le x.1 y.1).
Proof. intros x y z. apply (transitivity (R:=String.le)). Qed.

Lemma ForEach_sorted (b : gmap string string) :
  StronglySorted (λ x y : string * string, String.le x.1 y.1) (bolt.ForEach b).
Proof.
  unfold bolt.ForEach.
  apply (@StronglySorted_merge_sort _ _ _ key_order_trans key_order_total).
Qed.

Lemma ForEach_NoDup_keys (b : gmap string string) : NoDup (fst <$> bolt.ForEach b).
Proof. rewrite ForEach_Permutation. apply NoDup_fst_map_to_list. Qed.

Lemma ids_of_scan (filters : list AFilter) (l : list (bytes * bytes)) (a : Agreement) :
  (∀ kv r, kv ∈ l → json_Unmarshal kv.2 = Some r → CurrentAgreementId r = kv.1) →
  a ∈ filter (passes filters) (omap (λ kv, json_Unmarshal kv.2) l) →
  ∃ kv, kv ∈ l ∧ kv.1 = CurrentAgreementId a.
Proof.
  intros Hkeys [_ Ha]%list_elem_of_filter.
  apply list_elem_of_omap in Ha as (kv & Hkv & Hdec).
  exists kv. split; [done|]. symmetry. by apply Hkeys.
Qed.

Lemma scan_sorted (filters : list AFilter) (l : list (bytes * bytes)) :
  (∀ kv r, kv ∈ l → json_Unmarshal kv.2 = Some r → CurrentAgreementId r = kv.1) →
  StronglySorted (λ x y : string * string, String.le x.1 y.1) l →
  NoDup (fst <$> l) →
  StronglySorted (λ a1 a2, String.le (CurrentAgreementId a1) (CurrentAgreementId a2))
                 (filter (passes filters) (omap (λ kv, json_Unmarshal kv.2) l))
  ∧ NoDup (CurrentAgreementId <$>
             filter (passes filters) (omap (λ kv, json_Unmarshal kv.2) l)).
Proof.
  intros Hkeys Hsorted. induction Hsorted as [|kv l Hsorted IH Hall]; intros Hnodup.
  { split; constructor. }
  rewrite fmap_cons in Hnodup. apply NoDup_cons in Hnodup as [Hfresh Hnodup].
  destruct IH as [IHs IHn]; [|done|].
  { intros kv' r Hin. apply Hkeys. by right. }
  assert (∀ a, a ∈ filter (passes filters) (omap (λ kv, json_Unmarshal kv.2) l) →
               ∃ kv', kv' ∈ l ∧ kv'.1 = CurrentAgreementId a) as Hids.
  { intros a. apply ids_of_scan. intros kv' r Hin. apply Hkeys. by right. }
  csimpl. destruct (json_Unmarshal kv.2) as [r|] eqn:Hdec; csimpl; [|done].
  rewrite filter_cons. destruct (decide (passes filters r)); [|done].
  assert (CurrentAgreementId r = kv.1) as Hr by (apply Hkeys; [by left|done]).
  split.
  - constructor; [done|]. apply Forall_forall. intros a Ha.
    destruct (Hids a Ha) as (kv' & Hin & <-). rewrite Hr.
    rewrite Forall_forall in Hall. by apply Hall.
  - rewrite fmap_cons. apply NoDup_cons. split; [|done].
    intros (a & Heq & Ha)%list_elem_of_fmap.
    destruct (Hids a Ha) as (kv' & Hin & Hk). apply Hfresh.
    apply list_elem_of_fmap. exists kv'. split; [congruence|done].
Qed.

(** X10. In a store whose records sit under their own ids, [FindAgreements]
    returns the records in ascending byte order of their agreement ids, each
    id once. *)
Theorem FindAgreements_ordered (db : bolt.DB) (filters : list AFilter) :
  store_consistent db →
  StronglySorted (λ a1 a2, String.le (CurrentAgreementId a1) (CurrentAgreementId a2))
                 (val (FindAgreements db filters)).1
  ∧ NoDup (CurrentAgreementId <$> (val (FindAgreements db filters)).1).
Proof.
  intros Hcons. rewrite FindAgreements_val. simpl. unfold stored_agreements, bolt.Bucket_.
  destruct (db !! AGREEMENTS) as [b|] eqn:Hb.
  - apply scan_sorted; [|apply ForEach_sorted|apply ForEach_NoDup_keys].
    intros [k v] r Hin Hdec. simpl in *. apply (Hcons k v r); [|done].
    rewrite ForEach_Permutation in Hin. apply elem_of_map_to_list in Hin.
    unfold bolt.Get. by rewrite Hb.
  - split; constructor.
Qed.

End filters.

(** ** What an update never does *)

Section update_frame.
Context `{!Marshaler Agreement, !Unmarshaler Agreement}.

Lemma persistUpdatedAgreement_keys (db : bolt.DB) (agreementid : string) (update : Agreement) :
  (∀ key, is_Some (bolt.Get (store (persistUpdatedAgreement db agreementid update))
                            AGREEMENTS key)
          ↔ is_Some (bolt.Get db AGREEMENTS key))
  ∧ (∀ name, is_Some (store (persistUpdatedAgreement db agreementid update) !! name)
             ↔ is_Some (db !! name))
  ∧ (∀ name, name ≠ AGREEMENTS →
             store (persistUpdatedAgreement db agreementid update) !! name = db !! name).
Proof.
  rewrite persistUpdatedAgreement_eq.
  destruct (bolt.Get db AGREEMENTS agreementid) as [current|] eqn:Hget; [|done].
  destruct (json_Unmarshal current) as [m|]; [|done].
  destruct (json_Marshal _) as [serialized|]; [|done].
  destruct (bolt.Put db AGREEMENTS agreementid serialized) as [|tx] eqn:Hput; [done|].
  simpl. split_and!.
  - intros key. erewrite Get_Put; [|by eapply Get_is_Some_bucket; eauto|done].
    case_decide; [|done]. subst. rewrite Hget. split; eauto.
  - intros name. by eapply Put_is_Some.
  - intros name Hne. by eapply lookup_Put_ne.
Qed.

(** X11. An update creates and removes nothing: after [singleAgreementUpdate]
    with any transformation, and so after [AgreementMade], whatever they
    return, the agreements bucket has the keys it had, the store has the
    buckets it had (the agreements bucket is not left behind when it did not
    exist), and the other buckets hold what they held. *)
Theorem update_keeps_keys (db : bolt.DB) (agreementid : string) :
  (∀ fn,
     let db' := store (singleAgreementUpdate db agreementid fn) in
     (∀ key, is_Some (bolt.Get db' AGREEMENTS key) ↔ is_Some (bolt.Get db AGREEMENTS key))
     ∧ (∀ name, is_Some (db' !! name) ↔ is_Some (db !! name))
     ∧ (∀ name, name ≠ AGREEMENTS → db' !! name = db !! name))
  ∧ (∀ proposal url checks now,
     let db' := store (AgreementMade db agreementid proposal url checks now) in
     (∀ key, is_Some (bolt.Get db' AGREEMENTS key) ↔ is_Some (bolt.Get db AGREEMENTS key))
     ∧ (∀ name, is_Some (db' !! name) ↔ is_Some (db !! name))
     ∧ (∀ name, name ≠ AGREEMENTS → db' !! name = db !! name)).
Proof.
  assert (∀ fn,
     let db' := store (singleAgreementUpdate db agreementid fn) in
     (∀ key, is_Some (bolt.Get db' AGREEMENTS key) ↔ is_Some (bolt.Get db AGREEMENTS key))
     ∧ (∀ name, is_Some (db' !! name) ↔ is_Some (db !! name))
     ∧ (∀ name, name ≠ AGREEMENTS → db' !! name = db !! name)) as Hsingle.
  { intros fn db'. subst db'.
    destruct (singleAgreementUpdate_store db agreementid fn) as [->|(a & _ & ->)]; [done|].
    apply persistUpdatedAgreement_keys. }
  split; [done|].
  intros proposal url checks now. rewrite AgreementMade_store. apply Hsingle.
Qed.

End update_frame.

(** * Command line utilities *)

Section credentials.
Import cliutils.

Lemma append_nil (s : string) : "" +:+ s = s.
Proof. reflexivity. Qed.

Lemma append_String (c : ascii) (p s : string) : String c p +:+ s = String c (p +:+ s).
Proof. reflexivity. Qed.

Ltac string_simpl := rewrite ?append_nil, ?append_String; simpl.

Lemma cut_Some (sep : ascii) (s before after : string) :
  cut sep s = Some (before, after) →
  s = before +:+ String sep after ∧ cut sep before = None.
Proof.
  revert before. induction s as [|c s IH]; intros before; simpl; [done|].
  destruct (Ascii.eqb c sep) eqn:Hc.
  - apply Ascii.eqb_eq in Hc as ->. by intros [= <- <-].
  - destruct (cut sep s) as [[b a]|]; [|done]. intros [= <- <-].
    destruct (IH b eq_refl) as [-> Hb]. string_simpl. by rewrite Hc, Hb.
Qed.

Lemma cut_app (sep : ascii) (p s : string) :
  cut sep p = None →
  cut sep (p +:+ s)
  = match cut sep s with
    | Some (before, after) => Some (p +:+ before, after)
    | None => None
    end.
Proof.
  induction p as [|c p IH]; string_simpl.
  - intros _. destruct (cut sep s) as [[??]|]; by string_simpl.
  - destruct (Ascii.eqb c sep); [done|].
    destruct (cut sep p) as [[??]|] eqn:Hp; [done|]. intros _. rewrite IH by done.
    destruct (cut sep s) as [[??]|]; by string_simpl.
Qed.

Lemma cut_at_separator (sep : ascii) (before after : string) :
  cut sep before = None → cut sep (before +:+ String sep after) = Some (before, after).
Proof.
  intros Hb. rewrite cut_app by done. simpl. rewrite Ascii.eqb_refl.
  f_equal. f_equal. clear Hb. induction before as [|c b IH]; [done|].
  string_simpl. by f_equal.
Qed.

Lemma Contains_false (s : string) (c : ascii) : Contains s c = false ↔ cut c s = None.
Proof. unfold Contains. by destruct (cut c s). Qed.

Lemma Contains_after (p s : string) (c : ascii) :
  Contains (p +:+ String c s) c = true.
Proof.
  unfold Contains. induction p as [|a p IH]; string_simpl.
  - by rewrite Ascii.eqb_refl.
  - destruct (Ascii.eqb a c); [done|]. by destruct (cut c (p +:+ String c s)) as [[??]|].
Qed.

Lemma SplitIdToken_eq (idToken : string) :
  SplitIdToken idToken
  = match cut ":" idToken with
    | Some (id, token) => (id, token)
    | None => (idToken, "")
    end.
Proof. unfold SplitIdToken, SplitN2. by destruct (cut ":" idToken) as [[??]|]. Qed.

(** X12. [SplitIdToken] splits at the first colon: the id has no colon, and
    the argument is the id, a colon and the token; without a colon the id is
    the whole argument and the token is empty. *)
Theorem SplitIdToken_parts (idToken : string) :
  Contains (SplitIdToken idToken).1 ":" = false
  ∧ if Contains idToken ":"
    then idToken = (SplitIdToken idToken).1 +:+ ":" +:+ (SplitIdToken idToken).2
    else SplitIdToken idToken = (idToken, "").
Proof.
  rewrite SplitIdToken_eq. unfold Contains at 2.
  destruct (cut ":" idToken) as [[id token]|] eqn:Hcut; simpl.
  - destruct (cut_Some _ _ _ _ Hcut) as [-> Hid]. by rewrite Contains_false.
  - by rewrite Contains_false.
Qed.

(** X13. Joining an id that has no colon and a token with a colon, and
    splitting the result, gives the id and the token back, whatever the token
    holds. *)
Theorem SplitIdToken_join (id token : string) :
  Contains id ":" = false →
  SplitIdToken (id +:+ ":" +:+ token) = (id, token).
Proof.
  intros Hid%Contains_false. rewrite SplitIdToken_eq.
  change (id +:+ ":" +:+ token) with (id +:+ String ":" token).
  by rewrite cut_at_separator.
Qed.

Lemma OrgAndCreds_prepended (org creds : string) :
  Contains org ":" = false →
  SplitIdToken (org +:+ "/" +:+ creds)
  = (org +:+ "/" +:+ (SplitIdToken creds).1, (SplitIdToken creds).2).
Proof.
  intros Horg%Contains_false. rewrite !SplitIdToken_eq.
  rewrite cut_app by done.
  change ("/" +:+ creds) with (String "/"%char creds). simpl.
  destruct (cut ":" creds) as [[id token]|]; done.
Qed.

(** X14. For an org without a colon, [OrgAndCreds] is idempotent and leaves
    the token of the credentials as it is; unless USING_API_KEY is 1, the id
    of the credentials it returns has an org in front (it contains a
    slash). *)
Theorem OrgAndCreds_once (Getenv : string → string) (org creds : string) :
  Contains org ":" = false →
  OrgAndCreds Getenv org (OrgAndCreds Getenv org creds) = OrgAndCreds Getenv org creds
  ∧ (SplitIdToken (OrgAndCreds Getenv org creds)).2 = (SplitIdToken creds).2
  ∧ (Getenv "USING_API_KEY" ≠ "1" →
     Contains (SplitIdToken (OrgAndCreds Getenv org creds)).1 "/" = true).
Proof.
  intros Horg. unfold OrgAndCreds.
  destruct (String.eqb (Getenv "USING_API_KEY") "1") eqn:Henv.
  { split_and!; [done..|]. intros Hne. by apply String.eqb_eq in Henv. }
  destruct (SplitIdToken creds) as [id token] eqn:Hsplit.
  destruct (Contains id "/") eqn:Hid.
  - by rewrite Hsplit, Hid.
  - rewrite OrgAndCreds_prepended, Hsplit by done. simpl.
    change (org +:+ "/" +:+ id) with (org +:+ String "/"%char id).
    by rewrite Contains_after.
Qed.

End credentials.

Section exchange_ids.
Import cliutils.

Lemma after_scheme_prefix (scheme rest : string) :
  all_bytes scheme_byte scheme = true →
  after_scheme (scheme +:+ "://" +:+ rest) = Some rest.
Proof.
  induction scheme as [|c scheme IH]; [done|].
  rewrite append_String. simpl. intros [Hc Hs]%andb_true_iff. rewrite Hc. by apply IH.
Qed.

Lemma after_scheme_length (s rest : string) :
  after_scheme s = Some rest → (String.length rest < String.length s)%nat.
Proof.
  induction s as [|c s IH]; [done|]. simpl.
  destruct (scheme_byte c).
  - intros Hs%IH. lia.
  - destruct c as [[] [] [] [] [] [] [] []]; try done.
    destruct s as [|c1 s]; [done|].
    destruct c1 as [[] [] [] [] [] [] [] []]; try done.
    destruct s as [|c2 s]; [done|].
    destruct c2 as [[] [] [] [] [] [] [] []]; try done.
    intros [= <-]. simpl. lia.
Qed.

Lemma map_bytes_length (f : ascii → ascii) (s : string) :
  String.length (map_bytes f s) = String.length s.
Proof. induction s; simpl; congruence. Qed.

Lemma map_bytes_clean (s : string) :
  all_bytes (λ c, negb (troublesome c))
            (map_bytes (λ c, if troublesome c then "-"%char else c) s) = true.
Proof.
  induction s as [|c s IH]; [done|]. simpl. rewrite IH, andb_true_r.
  by destruct (troublesome c) eqn:Hc; [|rewrite Hc].
Qed.

(** X15. The id [FormExchangeId] forms does not depend on the scheme of the
    url: for two schemes made of letters, digits, plus, dot and dash, the urls
    [scheme1://rest] and [scheme2://rest] give the same id, the one whose url
    part is [rest] with every troublesome byte replaced by a dash. *)
Theorem FormExchangeId_scheme (scheme1 scheme2 rest version arch : string) :
  all_bytes scheme_byte scheme1 = true →
  all_bytes scheme_byte scheme2 = true →
  FormExchangeId (scheme1 +:+ "://" +:+ rest) version arch
  = FormExchangeId (scheme2 +:+ "://" +:+ rest) version arch
  ∧ FormExchangeId (scheme1 +:+ "://" +:+ rest) version arch
    = map_bytes (λ c, if troublesome c then "-"%char else c) rest
      +:+ "_" +:+ version +:+ "_" +:+ arch.
Proof.
  intros H1 H2. unfold FormExchangeId. by rewrite !after_scheme_prefix.
Qed.

(** X16. The id [FormExchangeId] forms is a url part followed by an
    underscore, the version, an underscore and the arch, unchanged; the url
    part is no longer than the url and has none of the bytes
    [$!*,;/?@&~=%]. *)
Theorem FormExchangeId_url_part (url version arch : string) :
  ∃ url3,
    FormExchangeId url version arch = url3 +:+ "_" +:+ version +:+ "_" +:+ arch
    ∧ all_bytes (λ c, negb (troublesome c)) url3 = true
    ∧ (String.length url3 ≤ String.length url)%nat.
Proof.
  unfold FormExchangeId. eexists. split; [done|]. split.
  - apply map_bytes_clean.
  - rewrite map_bytes_length.
    destruct (after_scheme url) as [rest|] eqn:Hs; [|done].
    apply after_scheme_length in Hs. lia.
Qed.

Lemma isGoodCode_loop_true (actualHttpCode : Z) (goodHttpCodes : list Z) :
  isGoodCode_loop actualHttpCode goodHttpCodes = true ↔ actualHttpCode ∈ goodHttpCodes.
Proof.
  induction goodHttpCodes as [|code rest IH]; simpl.
  - split; [done|]. by intros ?%elem_of_nil.
  - rewrite elem_of_cons. destruct (code =? actualHttpCode) eqn:Hc.
    + apply Z.eqb_eq in Hc. split; [|done]. intros _. by left.
    + apply Z.eqb_neq in Hc. rewrite IH. split; [by right|]. by intros [?|?].
Qed.

(** X17. [isGoodCode] accepts every code when the list of good codes is
    empty, and otherwise exactly the codes of the list. *)
Theorem isGoodCode_true (actualHttpCode : Z) (goodHttpCodes : list Z) :
  isGoodCode actualHttpCode goodHttpCodes = true
  ↔ goodHttpCodes = [] ∨ actualHttpCode ∈ goodHttpCodes.
Proof.
  unfold isGoodCode. destruct goodHttpCodes as [|code rest].
  - simpl. split; [by left|done].
  - destruct (Z.of_nat (length (code :: rest)) =? 0) eqn:Hlen.
    { apply Z.eqb_eq in Hlen. simpl in Hlen. lia. }
    rewrite isGoodCode_loop_true. split; [by right|]. by intros [?|?].
Qed.

End exchange_ids.

(** ** The REST helpers *)

Section rest_helpers.
Import cliutils.

Lemma bind_Returned {A B : Type} (m : Run A) (k : A → Run B) (b : B) :
  outcome (m ≫= k) = Returned b ↔ ∃ a, outcome m = Returned a ∧ outcome (k a) = Returned b.
Proof.
  unfold mbind, Run_bind. destruct (outcome m) as [a| |]; simpl.
  - split; [eauto|]. by intros (a' & [= <-] & ?).
  - split; [done|]. by intros (? & ? & ?).
  - split; [done|]. by intros (? & ? & ?).
Qed.

Lemma bind_Exited {A B : Type} (m : Run A) (k : A → Run B) (exitCode : Z) :
  outcome (m ≫= k) = Exited exitCode
  ↔ outcome m = Exited exitCode
    ∨ ∃ a, outcome m = Returned a ∧ outcome (k a) = Exited exitCode.
Proof.
  unfold mbind, Run_bind. destruct (outcome m) as [a| |]; simpl.
  - split; [eauto|]. intros [?|(a' & [= <-] & ?)]; done.
  - split; [intros [= ->]; by left|]. intros [[= ->]|(? & ? & ?)]; done.
  - split; [done|]. intros [?|(? & ? & ?)]; done.
Qed.

Lemma bind_stderr {A B : Type} (m : Run A) (k : A → Run B) :
  stderr (m ≫= k)
  = stderr m ++ match outcome m with Returned a => stderr (k a) | _ => [] end.
Proof.
  unfold mbind, Run_bind. destruct (outcome m); simpl; by rewrite ?app_nil_r.
Qed.

Lemma Verbose_Returned (w : World) (msg : string) (args : list Arg) (u : unit) :
  outcome (Verbose w msg args) = Returned u → is_Some (Opts_Verbose w).
Proof. unfold Verbose. destruct (Opts_Verbose w); [eauto|done]. Qed.

Lemma Verbose_not_Exited (w : World) (msg : string) (args : list Arg) (exitCode : Z) :
  outcome (Verbose w msg args) ≠ Exited exitCode.
Proof. unfold Verbose. destruct (Opts_Verbose w) as [[]|]; done. Qed.

Lemma Verbose_quiet (w : World) (msg : string) (args : list Arg) :
  Opts_Verbose w = Some false → Verbose w msg args = mret tt.
Proof. unfold Verbose. by intros ->. Qed.

Lemma Fatal_outcome {A : Type} (exitCode : Z) (msg : string) (args : list Arg) :
  outcome (Fatal (A:=A) exitCode msg args) = Exited exitCode.
Proof. done. Qed.

Lemma printHorizonRestError_outcome {A : Type} (w : World) (apiMethod err : string) :
  outcome (printHorizonRestError (A:=A) w apiMethod err) = Exited HTTP_ERROR.
Proof. unfold printHorizonRestError. by destruct (String.eqb _ _). Qed.

Lemma printHorizonExchRestError_outcome {A : Type} (w : World) (apiMethod err : string) :
  outcome (printHorizonExchRestError (A:=A) w apiMethod err) = Exited HTTP_ERROR.
Proof. unfold printHorizonExchRestError. by destruct (String.eqb _ _). Qed.

Lemma isGoodCode_nonempty (actualHttpCode first : Z) (rest : list Z) :
  isGoodCode actualHttpCode (first :: rest) = true → actualHttpCode ∈ first :: rest.
Proof.
  unfold isGoodCode.
  destruct (Z.of_nat (length (first :: rest)) =? 0) eqn:Hlen.
  { apply Z.eqb_eq in Hlen. simpl in Hlen. lia. }
  apply isGoodCode_loop_true.
Qed.

(** Takes a hypothesis on the outcome of a sequence of steps apart. *)
Ltac step :=
  match goal with
  | H : outcome (_ ≫= _) = Returned _ |- _ => apply bind_Returned in H as (? & ? & H)
  | H : outcome (_ ≫= _) = Exited _ |- _ => apply bind_Exited in H as [H|(? & ? & H)]
  | H : outcome (Verbose _ _ _) = Exited _ |- _ => by apply Verbose_not_Exited in H
  | H : outcome (match ?x with _ => _ end) = _ |- _ => destruct x eqn:?; simpl in H
  | H : outcome (if ?x then _ else _) = _ |- _ => destruct x eqn:?; simpl in H
  | H : outcome (Fatal _ _ _) = Returned _ |- _ => by rewrite Fatal_outcome in H
  | H : outcome (Fatal _ _ _) = Exited _ |- _ => rewrite Fatal_outcome in H
  | H : outcome (printHorizonRestError _ _ _) = _ |- _ =>
      rewrite printHorizonRestError_outcome in H
  | H : outcome (printHorizonExchRestError _ _ _) = _ |- _ =>
      rewrite printHorizonExchRestError_outcome in H
  | H : outcome (mret _) = _ |- _ => change (outcome (mret ?a)) with (Returned a) in H
  | H : outcome (mkRun _ _) = _ |- _ => simpl in H
  | H : Panicked = _ |- _ => discriminate H
  | H : Exited _ = Returned _ |- _ => discriminate H
  | H : Returned _ = Exited _ |- _ => discriminate H
  | H : Returned _ = Returned _ |- _ => injection H as H
  | H : Exited _ = Exited _ |- _ => injection H as H
  end.

Ltac steps := repeat step.

Ltac quiet :=
  unfold mbind, Run_bind, mret, Run_ret, printHorizonRestError,
    printHorizonExchRestError, Fatal;
  simpl; repeat (case_match; simpl; try done).

Ltac good_code :=
  match goal with
  | Hgood : negb (isGoodCode _ _) = false |- _ => by apply negb_false_iff in Hgood
  end.

(** X18. When [HorizonGet] returns a code, the request got a response with
    that status, the list of good codes is not empty and has the code, and
    the structure is untouched unless the code is the first good code; for
    the first good code the body was read to its end without error and the
    structure holds it, as text for a [*string] and decoded otherwise. *)
Theorem HorizonGet_returned {T : Type} `{!Unmarshaler T} (w : World) (urlSuffix : string)
    (goodHttpCodes : list Z) (structure : Structure) (httpCode : Z) (filled : Filled T) :
  outcome (HorizonGet w urlSuffix goodHttpCodes structure) = Returned (httpCode, filled) →
  ∃ resp first rest,
    http_Get w (GetHorizonUrlBase (Getenv w) +:+ "/" +:+ urlSuffix) = inr resp
    ∧ StatusCode resp = httpCode
    ∧ goodHttpCodes = first :: rest
    ∧ httpCode ∈ goodHttpCodes
    ∧ (httpCode ≠ first → filled = Untouched)
    ∧ (httpCode = first →
       readErr (RespBody resp) = None
       ∧ match structure with
         | StringPtr => filled = Text (data (RespBody resp))
         | StructPtr =>
           ∃ t, json_Unmarshal (data (RespBody resp)) = Some t ∧ filled = Decoded t
         end).
Proof.
  unfold HorizonGet. intros H. steps; subst.
  all: match goal with
       | Hgood : negb (isGoodCode _ _) = false |- _ =>
           apply negb_false_iff, isGoodCode_nonempty in Hgood
       end.
  all: eexists _, _, _; split_and!; try done.
  all: try match goal with
       | Heq : (_ =? _) = true |- _ => apply Z.eqb_eq in Heq
       | Heq : (_ =? _) = false |- _ => apply Z.eqb_neq in Heq
       end; try done.
  intros _. split; [done|]. eauto.
Qed.

(** X19. With an empty list of good codes [HorizonGet] never returns: it
    panics when the verbose flag is nil, exits with [HTTP_ERROR] when the
    request fails, and panics on the first good code that is not there once a
    response has arrived, whatever its status. *)
Theorem HorizonGet_empty_codes {T : Type} `{!Unmarshaler T} (w : World) (urlSuffix : string)
    (structure : Structure) :
  outcome (HorizonGet (T:=T) w urlSuffix [] structure)
  = match Opts_Verbose w with
    | None => Panicked
    | Some _ =>
      match http_Get w (GetHorizonUrlBase (Getenv w) +:+ "/" +:+ urlSuffix) with
      | inl _ => Exited HTTP_ERROR
      | inr _ => Panicked
      end
    end.
Proof.
  unfold HorizonGet, Verbose, mbind, Run_bind.
  destruct (Opts_Verbose w) as [verbose|]; [|done].
  destruct (http_Get w _) as [err|resp]; destruct verbose; simpl;
    by rewrite ?printHorizonRestError_outcome.
Qed.

(** X20. The code a REST helper returns passed [isGoodCode] for the list of
    good codes it was given: [HorizonGet], [HorizonDelete], [HorizonPutPost],
    [ExchangeGet], [ExchangePutPost] and [ExchangeDelete]. *)
Theorem rest_returns_good_code (w : World) (goodHttpCodes : list Z) (httpCode : Z) :
  (∀ (T : Type) (U : Unmarshaler T) urlSuffix structure (filled : Filled T),
     outcome (HorizonGet w urlSuffix goodHttpCodes structure) = Returned (httpCode, filled) →
     isGoodCode httpCode goodHttpCodes = true)
  ∧ (∀ urlSuffix,
       outcome (HorizonDelete w urlSuffix goodHttpCodes) = Returned httpCode →
       isGoodCode httpCode goodHttpCodes = true)
  ∧ (∀ (T : Type) (M : Marshaler T) method urlSuffix (body : PutPostBody T),
       outcome (HorizonPutPost w method urlSuffix goodHttpCodes body) = Returned httpCode →
       isGoodCode httpCode goodHttpCodes = true)
  ∧ (∀ (T J : Type) (U : Unmarshaler T) (UJ : Unmarshaler J) (I : Indenter J)
       urlBase urlSuffix credentials structure (filled : Filled T),
       outcome (ExchangeGet (J:=J) w urlBase urlSuffix credentials goodHttpCodes structure)
       = Returned (httpCode, filled) →
       isGoodCode httpCode goodHttpCodes = true)
  ∧ (∀ (T : Type) (M : Marshaler T) (U : Unmarshaler PostDeviceResponse)
       method urlBase urlSuffix credentials (body : ExchangeBody T),
       outcome (ExchangePutPost w method urlBase urlSuffix credentials goodHttpCodes body)
       = Returned httpCode →
       isGoodCode httpCode goodHttpCodes = true)
  ∧ (∀ urlBase urlSuffix credentials,
       outcome (ExchangeDelete w urlBase urlSuffix credentials goodHttpCodes)
       = Returned httpCode →
       isGoodCode httpCode goodHttpCodes = true).
Proof.
  split_and!; intros.
  - unfold HorizonGet in *. steps; subst; good_code.
  - unfold HorizonDelete in *. steps; subst; good_code.
  - unfold HorizonPutPost in *. steps; subst; good_code.
  - unfold ExchangeGet in *. steps; subst; good_code.
  - unfold ExchangePutPost in *. steps; subst; good_code.
  - unfold ExchangeDelete in *. steps; subst; good_code.
Qed.

(** X21. A REST helper that ends the process does so with [HTTP_ERROR] or
    [JSON_PARSING_ERROR]; [HorizonDelete] and [ExchangeDelete], which neither
    encode nor decode anything, only with [HTTP_ERROR]. *)
Theorem rest_exit_codes (w : World) (goodHttpCodes : list Z) (exitCode : Z) :
  (∀ (T : Type) (U : Unmarshaler T) urlSuffix structure,
     outcome (HorizonGet (T:=T) w urlSuffix goodHttpCodes structure) = Exited exitCode →
     exitCode = HTTP_ERROR ∨ exitCode = JSON_PARSING_ERROR)
  ∧ (∀ urlSuffix,
       outcome (HorizonDelete w urlSuffix goodHttpCodes) = Exited exitCode →
       exitCode = HTTP_ERROR)
  ∧ (∀ (T : Type) (M : Marshaler T) method urlSuffix (body : PutPostBody T),
       outcome (HorizonPutPost w method urlSuffix goodHttpCodes body) = Exited exitCode →
       exitCode = HTTP_ERROR ∨ exitCode = JSON_PARSING_ERROR)
  ∧ (∀ (T J : Type) (U : Unmarshaler T) (UJ : Unmarshaler J) (I : Indenter J)
       urlBase urlSuffix credentials structure,
       outcome (ExchangeGet (T:=T) (J:=J) w urlBase urlSuffix credentials goodHttpCodes
                            structure)
       = Exited exitCode →
       exitCode = HTTP_ERROR ∨ exitCode = JSON_PARSING_ERROR)
  ∧ (∀ (T : Type) (M : Marshaler T) (U : Unmarshaler PostDeviceResponse)
       method urlBase urlSuffix credentials (body : ExchangeBody T),
       outcome (ExchangePutPost w method urlBase urlSuffix credentials goodHttpCodes body)
       = Exited exitCode →
       exitCode = HTTP_ERROR ∨ exitCode = JSON_PARSING_ERROR)
  ∧ (∀ urlBase urlSuffix credentials,
       outcome (ExchangeDelete w urlBase urlSuffix credentials goodHttpCodes)
       = Exited exitCode →
       exitCode = HTTP_ERROR).
Proof.
  split_and!; intros.
  - unfold HorizonGet in *. steps; subst; auto.
  - unfold HorizonDelete in *. steps; subst; auto.
  - unfold HorizonPutPost in *. steps; subst; auto.
  - unfold ExchangeGet in *. steps; subst; auto.
  - unfold ExchangePutPost in *. steps; subst; auto.
  - unfold ExchangeDelete in *. steps; subst; auto.
Qed.

(** X22. The request a helper that returns has sent.  [HorizonPutPost] sends
    bytes and strings as they are, with their length in a Content-Length
    header and no Content-Type, and anything else marshalled, with the json
    Content-Type.  [ExchangePutPost] sends the Authorization header exactly
    when the credentials are not empty; [ExchangeDelete] sends it always, and
    it is its only header. *)
Theorem rest_request_sent (w : World) (goodHttpCodes : list Z) (httpCode : Z) :
  (∀ (T : Type) (M : Marshaler T) method urlSuffix (body : PutPostBody T),
     outcome (HorizonPutPost w method urlSuffix goodHttpCodes body) = Returned httpCode →
     ∃ jsonBytes resp,
       match body with
       | BodyBytes b | BodyString b => jsonBytes = b
       | BodyOther b => json_Marshal b = Some jsonBytes
       end
       ∧ http_Do w
           (mkRequest method (GetHorizonUrlBase (Getenv w) +:+ "/" +:+ urlSuffix)
              [("Accept", "application/json");
               match body with
               | BodyBytes _ | BodyString _ =>
                 ("Content-Length", Itoa (Z.of_nat (String.length jsonBytes)))
               | BodyOther _ => ("Content-Type", "application/json")
               end]
              (Some jsonBytes))
         = inr resp
       ∧ StatusCode resp = httpCode)
  ∧ (∀ (T : Type) (M : Marshaler T) (U : Unmarshaler PostDeviceResponse)
       method urlBase urlSuffix credentials (body : ExchangeBody T),
       outcome (ExchangePutPost w method urlBase urlSuffix credentials goodHttpCodes body)
       = Returned httpCode →
       ∃ jsonBytes resp,
         match body with
         | ExchangeString b => jsonBytes = b
         | ExchangeOther b => json_Marshal b = Some jsonBytes
         end
         ∧ http_Do w
             (mkRequest method (urlBase +:+ "/" +:+ urlSuffix)
                ([("Accept", "application/json"); ("Content-Type", "application/json")]
                 ++ if decide (credentials = "") then []
                    else [("Authorization",
                           "Basic " +:+ base64_EncodeToString w credentials)])
                (Some jsonBytes))
           = inr resp
         ∧ StatusCode resp = httpCode)
  ∧ (∀ urlBase urlSuffix credentials,
       outcome (ExchangeDelete w urlBase urlSuffix credentials goodHttpCodes)
       = Returned httpCode →
       ∃ resp,
         http_Do w
           (mkRequest "DELETE" (urlBase +:+ "/" +:+ urlSuffix)
              [("Authorization", "Basic " +:+ base64_EncodeToString w credentials)]
              None)
         = inr resp
         ∧ StatusCode resp = httpCode).
Proof.
  split_and!.
  - intros T M method urlSuffix body H.
    unfold HorizonPutPost in *. steps; subst; simpl in *; eauto.
  - intros T M U method urlBase urlSuffix credentials body H.
    unfold ExchangePutPost in H.
    destruct (decide (credentials = "")) as [->|Hne].
    + steps; subst; simpl in *; eauto.
    + apply String.eqb_neq in Hne. rewrite Hne in H. steps; subst; simpl in *; eauto.
  - intros urlBase urlSuffix credentials H.
    unfold ExchangeDelete in *. steps; subst; simpl in *; eauto.
Qed.

(** X23. With the verbose flag off, a REST helper that returns has written
    nothing to standard error. *)
Theorem rest_quiet (w : World) (goodHttpCodes : list Z) :
  Opts_Verbose w = Some false →
  (∀ (T : Type) (U : Unmarshaler T) urlSuffix structure (r : Z * Filled T),
     outcome (HorizonGet w urlSuffix goodHttpCodes structure) = Returned r →
     stderr (HorizonGet (T:=T) w urlSuffix goodHttpCodes structure) = [])
  ∧ (∀ urlSuffix r,
       outcome (HorizonDelete w urlSuffix goodHttpCodes) = Returned r →
       stderr (HorizonDelete w urlSuffix goodHttpCodes) = [])
  ∧ (∀ (T : Type) (M : Marshaler T) method urlSuffix (body : PutPostBody T) r,
       outcome (HorizonPutPost w method urlSuffix goodHttpCodes body) = Returned r →
       stderr (HorizonPutPost w method urlSuffix goodHttpCodes body) = [])
  ∧ (∀ (T J : Type) (U : Unmarshaler T) (UJ : Unmarshaler J) (I : Indenter J)
       urlBase urlSuffix credentials structure (r : Z * Filled T),
       outcome (ExchangeGet (J:=J) w urlBase urlSuffix credentials goodHttpCodes structure)
       = Returned r →
       stderr (ExchangeGet (T:=T) (J:=J) w urlBase urlSuffix credentials goodHttpCodes
                           structure) = [])
  ∧ (∀ (T : Type) (M : Marshaler T) (U : Unmarshaler PostDeviceResponse)
       method urlBase urlSuffix credentials (body : ExchangeBody T) r,
       outcome (ExchangePutPost w method urlBase urlSuffix credentials goodHttpCodes body)
       = Returned r →
       stderr (ExchangePutPost w method urlBase urlSuffix credentials goodHttpCodes body)
       = [])
  ∧ (∀ urlBase urlSuffix credentials r,
       outcome (ExchangeDelete w urlBase urlSuffix credentials goodHttpCodes) = Returned r →
       stderr (ExchangeDelete w urlBase urlSuffix credentials goodHttpCodes) = []).
Proof.
  intros Hquiet.
  split_and!; intros *.
  - unfold HorizonGet, Verbose. rewrite Hquiet. quiet.
  - unfold HorizonDelete, Verbose. rewrite Hquiet. quiet.
  - unfold HorizonPutPost, Verbose. rewrite Hquiet. quiet.
  - unfold ExchangeGet, Verbose. rewrite Hquiet. quiet.
  - unfold ExchangePutPost, Verbose. rewrite Hquiet. quiet.
  - unfold ExchangeDelete, Verbose. rewrite Hquiet. quiet.
Qed.

End rest_helpers.

(** ** Json with comments *)

Section comments.
Import cliutils.

Lemma append_nil_r (s : string) : s +:+ "" = s.
Proof. induction s as [|x s IH]; [done|]. rewrite append_String. by f_equal. Qed.

Lemma starts_with_app (c : ascii) (p s : string) :
  p ≠ "" → starts_with c (p +:+ s) = starts_with c p.
Proof. by destruct p. Qed.

Lemma close_index_closing (c b : string) :
  close_index c = None →
  close_index (c +:+ "*/" +:+ b) = Some (String.length c).
Proof.
  induction c as [|x c IH]; [done|].
  rewrite append_String. simpl.
  destruct c as [|y c].
  - rewrite append_nil. simpl. by rewrite andb_false_r.
  - rewrite starts_with_app by done.
    destruct (Ascii.eqb x "*" && starts_with "/" (String y c)); [done|].
    destruct (close_index (String y c)) eqn:Hc; [done|]. intros _.
    by rewrite IH.
Qed.

Lemma remove_comments_skip (p s : string) (skip : nat) :
  remove_comments (String.length p + skip) (p +:+ s) = remove_comments skip s.
Proof. induction p as [|x p IH]; [done|]. by rewrite append_String. Qed.

Lemma remove_comments_literal (a s : string) :
  has_open a = false → starts_with "*" s = false →
  remove_comments 0 (a +:+ s) = a +:+ remove_comments 0 s.
Proof.
  intros Ha Hs. induction a as [|x a IH]; [done|].
  simpl in Ha. apply orb_false_iff in Ha as [Hx Ha].
  rewrite !append_String. simpl.
  assert (Ascii.eqb x "/" && starts_with "*" (a +:+ s) = false) as ->.
  { destruct a as [|y a].
    - rewrite append_nil, Hs. by rewrite andb_false_r.
    - by rewrite starts_with_app. }
  by rewrite IH.
Qed.

Lemma close_index_tail (s : string) : close_index s = None → close_index (tail s) = None.
Proof.
  destruct s as [|x s]; [done|]. simpl.
  destruct (Ascii.eqb x "*" && starts_with "/" s); [done|].
  by destruct (close_index s).
Qed.

Lemma remove_comments_no_close (s : string) :
  close_index s = None → remove_comments 0 s = s.
Proof.
  induction s as [|x s IH]; [done|]. intros Hs.
  pose proof (close_index_tail _ Hs) as Hs'. simpl in Hs'. simpl.
  rewrite (close_index_tail _ Hs'), IH by done.
  by destruct (Ascii.eqb x "/" && starts_with "*" s).
Qed.

Lemma remove_comments_length (skip : nat) (s : string) :
  (String.length (remove_comments skip s) ≤ String.length s)%nat.
Proof.
  revert skip. induction s as [|x s IH]; intros skip; [done|]. simpl.
  destruct skip as [|skip].
  - destruct (Ascii.eqb x "/" && starts_with "*" s).
    + destruct (close_index (tail s)).
      * specialize (IH (n + 3)%nat). lia.
      * simpl. specialize (IH 0%nat). lia.
    + simpl. specialize (IH 0%nat). lia.
  - specialize (IH skip). lia.
Qed.

(** X24. Removing the comments leaves a text with no [/*], and a text with
    no [*/], as it is, and never makes a text longer. *)
Theorem remove_comments_nothing (s : string) :
  (has_open s = false → remove_comments 0 s = s)
  ∧ (close_index s = None → remove_comments 0 s = s)
  ∧ (String.length (remove_comments 0 s) ≤ String.length s)%nat.
Proof.
  split_and!.
  - intros Hs. pose proof (remove_comments_literal s "" Hs eq_refl) as H.
    simpl in H. by rewrite !append_nil_r in H.
  - apply remove_comments_no_close.
  - apply remove_comments_length.
Qed.

(** X25. A comment is removed with its delimiters and the search goes on
    after it: when [a] has no [/*] and [c] no [*/], the text
    [a /* c */ b] becomes [a] followed by [b] with its comments removed. *)
Theorem remove_comments_comment (a c b : string) :
  has_open a = false → close_index c = None →
  remove_comments 0 (a +:+ "/*" +:+ c +:+ "*/" +:+ b) = a +:+ remove_comments 0 b.
Proof.
  intros Ha Hc.
  rewrite remove_comments_literal by done. f_equal.
  change ("/*" +:+ c +:+ "*/" +:+ b) with (String "/" (String "*" (c +:+ "*/" +:+ b))).
  simpl. rewrite close_index_closing by done.
  replace (String.length c + 3)%nat with (S (String.length c + 2)) by lia.
  by rewrite remove_comments_skip.
Qed.

End comments.

(** * The further theorems at work *)

Section worked_further.
Import cliutils.
#[local] Existing Instance LineCodec.Marshal_Agreement.
#[local] Existing Instance LineCodec.Unmarshal_Agreement.

Ltac run := vm_compute; reflexivity.
Ltac round_trip := eexists; split; vm_compute; reflexivity.

Lemma two_consistent : store_consistent Stores.two.
Proof.
  eapply AgreementAttempt_consistent; [apply one_consistent | run | round_trip].
Defined.

Lemma DeleteAgreement_removes_record_witness :
  let db := Stores.corrupt in
  "a" ≠ "" ∧ bolt.Get db AGREEMENTS "a" = Some "not a record"
  ∧ val (DeleteAgreement db "a") = None
  ∧ bolt.Get (store (DeleteAgreement db "a")) AGREEMENTS "a" = None
  ∧ (∀ key, key ≠ "a" →
       bolt.Get (store (DeleteAgreement db "a")) AGREEMENTS key = bolt.Get db AGREEMENTS key)
  ∧ (∀ name, name ≠ AGREEMENTS → store (DeleteAgreement db "a") !! name = db !! name)
  ∧ logged (DeleteAgreement db "a")
    = match json_Unmarshal (T:=Agreement) "not a record" with
      | None => [Errorf ErrorDeserializingAgreement]
      | Some record =>
        if bool_decide (CurrentAgreementId record = "") then []
        else [Errorf DeletingRecordWithAgreementId]
      end.
Proof.
  intros db.
  assert ("a" ≠ "") as H1 by discriminate.
  assert (bolt.Get db AGREEMENTS "a" = Some "not a record") as H2 by run.
  split; [exact H1|]. split; [exact H2|].
  exact (DeleteAgreement_removes_record db "a" "not a record" H1 H2).
Defined.

Lemma DeleteAgreement_then_find_witness :
  store_consistent Stores.one ∧ "agr-1" ≠ ""
  ∧ val (FindSingleAgreementByAgreementId (store (DeleteAgreement Stores.one "agr-1")) "agr-1")
    = (None, None).
Proof.
  assert ("agr-1" ≠ "") as H1 by discriminate.
  split; [exact one_consistent|]. split; [exact H1|].
  exact (DeleteAgreement_then_find Stores.one "agr-1" one_consistent H1).
Defined.

Lemma PersistNew_writes_witness :
  let r := PersistNew ∅ "agr-1" "other" Stores.agr1 in
  val r = None
  ∧ bolt.Get ∅ "other" "agr-1" = None
  ∧ (∃ serialized,
       json_Marshal Stores.agr1 = Some serialized
       ∧ bolt.Get (store r) "other" "agr-1" = Some serialized)
  ∧ (∀ key, key ≠ "agr-1" → bolt.Get (store r) "other" key = bolt.Get ∅ "other" key)
  ∧ (∀ name, name ≠ "other" → store r !! name = (∅ : bolt.DB) !! name).
Proof.
  intros r.
  assert (val r = None) as H1 by run.
  split; [exact H1|].
  exact (PersistNew_writes ∅ "agr-1" "other" Stores.agr1 H1).
Defined.

Lemma store_consistent_preserved_witness :
  store_consistent Stores.one
  ∧ store_consistent (store (AgreementMade Stores.one "agr-1" "P" "U" true 1500000100))
  ∧ store_consistent (store (DeleteAgreement Stores.one "agr-1")).
Proof.
  pose proof (store_consistent_preserved Stores.one one_consistent) as (_ & Hmade & Hdelete).
  split; [exact one_consistent|]. split; [|apply Hdelete].
  apply Hmade. intros before Hbefore.
  assert (before = Stores.agr1) as ->.
  { vm_compute in Hbefore. by injection Hbefore. }
  round_trip.
Defined.

Lemma FindSingleAgreementByAgreementId_by_key_witness :
  store_consistent Stores.two
  ∧ val (FindSingleAgreementByAgreementId Stores.two "agr-1")
    = (bolt.Get Stores.two AGREEMENTS "agr-1" ≫= json_Unmarshal, None)
  ∧ ∀ a, (val (FindSingleAgreementByAgreementId Stores.two "agr-1")).1 = Some a →
         CurrentAgreementId a = "agr-1".
Proof.
  split; [exact two_consistent|].
  exact (FindSingleAgreementByAgreementId_by_key Stores.two "agr-1" two_consistent).
Defined.

Lemma FindAgreements_ordered_witness :
  store_consistent Stores.two
  ∧ StronglySorted (λ a1 a2, String.le (CurrentAgreementId a1) (CurrentAgreementId a2))
                   (val (FindAgreements Stores.two [])).1
  ∧ NoDup (CurrentAgreementId <$> (val (FindAgreements Stores.two [])).1).
Proof.
  split; [exact two_consistent|].
  exact (FindAgreements_ordered Stores.two [] two_consistent).
Defined.

(** The record created second is met first: its id comes first. *)
Example scan_in_key_order :
  CurrentAgreementId <$> (val (FindAgreements Stores.two [])).1 = ["agr-0"; "agr-1"].
Proof. run. Qed.

Lemma SplitIdToken_join_witness :
  Contains "user" ":" = false ∧ SplitIdToken ("user" +:+ ":" +:+ "pw:x") = ("user", "pw:x").
Proof.
  assert (Contains "user" ":" = false) as H1 by reflexivity.
  split; [exact H1|]. exact (SplitIdToken_join "user" "pw:x" H1).
Defined.

Lemma OrgAndCreds_once_witness :
  let Getenv := λ _ : string, "" in
  Contains "myorg" ":" = false
  ∧ OrgAndCreds Getenv "myorg" (OrgAndCreds Getenv "myorg" "me:pw/x")
    = OrgAndCreds Getenv "myorg" "me:pw/x"
  ∧ (SplitIdToken (OrgAndCreds Getenv "myorg" "me:pw/x")).2 = (SplitIdToken "me:pw/x").2
  ∧ (Getenv "USING_API_KEY" ≠ "1" →
     Contains (SplitIdToken (OrgAndCreds Getenv "myorg" "me:pw/x")).1 "/" = true).
Proof.
  intros Getenv.
  assert (Contains "myorg" ":" = false) as H1 by reflexivity.
  split; [exact H1|]. exact (OrgAndCreds_once Getenv "myorg" "me:pw/x" H1).
Defined.

(** An org with a colon is taken for an id and a token, and prepended again. *)
Example OrgAndCreds_org_with_colon :
  OrgAndCreds (λ _, "") "my:org" (OrgAndCreds (λ _, "") "my:org" "me:pw")
  = "my:org/my:org/me:pw".
Proof. reflexivity. Qed.

Lemma FormExchangeId_scheme_witness :
  let rest := "bluehorizon.network/workloads/x?y" in
  all_bytes scheme_byte "https" = true ∧ all_bytes scheme_byte "http" = true
  ∧ FormExchangeId ("https" +:+ "://" +:+ rest) "1.0" "amd64"
    = FormExchangeId ("http" +:+ "://" +:+ rest) "1.0" "amd64"
  ∧ FormExchangeId ("https" +:+ "://" +:+ rest) "1.0" "amd64"
    = map_bytes (λ c, if troublesome c then "-"%char else c) rest
      +:+ "_" +:+ "1.0" +:+ "_" +:+ "amd64".
Proof.
  intros rest.
  assert (all_bytes scheme_byte "https" = true) as H1 by reflexivity.
  assert (all_bytes scheme_byte "http" = true) as H2 by reflexivity.
  split; [exact H1|]. split; [exact H2|].
  exact (FormExchangeId_scheme "https" "http" rest "1.0" "amd64" H1 H2).
Defined.

Example FormExchangeId_of_a_workload :
  FormExchangeId "https://bluehorizon.network/workloads/x?y" "1.0" "amd64"
  = "bluehorizon.network-workloads-x-y_1.0_amd64"
  ∧ FormExchangeId "a://b://c" "1.0" "amd64" = "b:--c_1.0_amd64".
Proof. split; reflexivity. Qed.

Lemma HorizonGet_returned_witness :
  let call := HorizonGet (T:=Agreement) Worlds.quiet "status" [200; 404] StringPtr in
  outcome call = Returned (200, Text "running")
  ∧ ∃ resp first rest,
      http_Get Worlds.quiet (GetHorizonUrlBase (Getenv Worlds.quiet) +:+ "/" +:+ "status")
      = inr resp
      ∧ StatusCode resp = 200
      ∧ [200; 404] = first :: rest
      ∧ 200 ∈ [200; 404]
      ∧ (200 ≠ first → Text "running" = Untouched (T:=Agreement))
      ∧ (200 = first →
         readErr (RespBody resp) = None
         ∧ Text "running" = Text (T:=Agreement) (data (RespBody resp))).
Proof.
  intros call.
  assert (outcome call = Returned (200, Text "running")) as H1 by reflexivity.
  split; [exact H1|].
  exact (HorizonGet_returned Worlds.quiet "status" [200; 404] StringPtr 200
           (Text "running") H1).
Defined.

(** The same call with no good codes: a panic, not a return. *)
Example HorizonGet_without_good_codes :
  outcome (HorizonGet (T:=Agreement) Worlds.quiet "status" [] StringPtr) = Panicked.
Proof. reflexivity. Qed.

Lemma rest_quiet_witness :
  Opts_Verbose Worlds.quiet = Some false
  ∧ stderr (HorizonDelete Worlds.quiet "agreement/agr-1" [200; 204]) = [].
Proof.
  assert (Opts_Verbose Worlds.quiet = Some false) as H1 by reflexivity.
  split; [exact H1|].
  pose proof (rest_quiet Worlds.quiet [200; 204] H1) as (_ & Hdelete & _).
  exact (Hdelete "agreement/agr-1" 204 eq_refl).
Defined.

Lemma remove_comments_comment_witness :
  has_open "{" = false ∧ close_index " note " = None
  ∧ remove_comments 0 ("{" +:+ "/*" +:+ " note " +:+ "*/" +:+ "}")
    = "{" +:+ remove_comments 0 "}".
Proof.
  assert (has_open "{" = false) as H1 by reflexivity.
  assert (close_index " note " = None) as H2 by reflexivity.
  split; [exact H1|]. split; [exact H2|].
  exact (remove_comments_comment "{" " note " "}" H1 H2).
Defined.

(** Removing comments can uncover one: the result still has a comment. *)
Example remove_comments_twice :
  remove_comments 0 "//**/* x */" = "/* x */"
  ∧ remove_comments 0 (remove_comments 0 "//**/* x */") = ""
  ∧ remove_comments 0 "a /* x */ b /* y" = "a  b /* y".
Proof. split_and!; reflexivity. Qed.

End worked_further.

(** * Where creation and confirmation depend on the codec, the store and the clock *)

Section codec_and_clock.
#[local] Existing Instance Utf8Codec.Marshal_Agreement.
#[local] Existing Instance Utf8Codec.Unmarshal_Agreement.

(** C4 does not hold for every non-empty id, nor in every store.  With
    strings written the way [encoding/json] writes them, the id made of the
    byte FF is created without error in the empty store and its record is
    stored under the key FF with the id U+FFFD, so the lookup of FF finds
    nothing.  Creating the id U+FFFD, whose record does survive the codec,
    in that store (where a record sits under a key that is not its id) then
    succeeds too, and its lookup fails with the error for several records. *)
Lemma AgreementAttempt_then_find_counterexample :
  let id := String "255" "" in
  let created := AgreementAttempt ∅ id "proto-v1" 1500000000 in
  let id' := Utf8Codec.RuneError in
  let created' := AgreementAttempt (store created) id' "proto-v1" 1500000001 in
  (id ≠ "" ∧ "proto-v1" ≠ ""
   ∧ val created = None
   ∧ val (FindSingleAgreementByAgreementId (store created) id) = (None, None)
   ∧ val (FindSingleAgreementByAgreementId (store created) id)
     ≠ (Some (mkAgreement id "proto-v1" (uint64 1500000000) 0 "" "" false), None))
  ∧ (id' ≠ "" ∧ "proto-v1" ≠ ""
     ∧ RoundTrips (mkAgreement id' "proto-v1" (uint64 1500000001) 0 "" "" false)
     ∧ val created' = None
     ∧ (val (FindSingleAgreementByAgreementId (store created') id')).1 = None
     ∧ val (FindSingleAgreementByAgreementId (store created') id')
       ≠ (Some (mkAgreement id' "proto-v1" (uint64 1500000001) 0 "" "" false), None)).
Proof.
  intros id created id' created'. split.
  - split; [discriminate|]. split; [discriminate|].
    split; [vm_compute; reflexivity|]. split; [vm_compute; reflexivity|].
    intros H. vm_compute in H. discriminate H.
  - split; [discriminate|]. split; [discriminate|].
    split.
    { exists (default "" (Utf8Codec.marshal
                           (mkAgreement id' "proto-v1" (uint64 1500000001) 0 "" "" false))).
      split; vm_compute; reflexivity. }
    split; [vm_compute; reflexivity|]. split; [vm_compute; reflexivity|].
    intros H. vm_compute in H. discriminate H.
Qed.

(** C5 does not hold for every proposal, every clock reading and every
    store.  With strings written the way [encoding/json] writes them, the
    proposal made of the byte FF is stored and fetched again as U+FFFD, not
    as supplied.  At the clock reading 0 the creation time written is 0.  And
    in a store built with [PersistNew] where the record with id [x] sits
    under key [y] and another record under key [x], the update succeeds on
    the record under key [x] while the lookup of [x] still returns the
    record under [y], with its empty proposal. *)
Lemma AgreementMade_then_find_counterexample :
  let db := store (AgreementAttempt ∅ "agr-1" "proto-v1" 1500000000) in
  let proposal := String "255" "" in
  let made := AgreementMade db "agr-1" proposal "U" true 1500000100 in
  let made_at_0 := AgreementMade db "agr-1" "P" "U" true 0 in
  let crossed :=
    store (PersistNew
             (store (PersistNew ∅ "y" AGREEMENTS (mkAgreement "x" "proto-v1" 5 0 "" "" false)))
             "x" AGREEMENTS (mkAgreement "z" "proto-v1" 6 0 "" "" false)) in
  let made_crossed := AgreementMade crossed "x" "P" "U" true 1500000100 in
  (∃ ret after,
     val made = (Some ret, None)
     ∧ val (FindSingleAgreementByAgreementId (store made) "agr-1") = (Some after, None)
     ∧ Proposal after = Utf8Codec.RuneError
     ∧ Proposal after ≠ proposal)
  ∧ (∃ ret after,
       val made_at_0 = (Some ret, None)
       ∧ val (FindSingleAgreementByAgreementId (store made_at_0) "agr-1") = (Some after, None)
       ∧ AgreementCreationTime after = 0
       ∧ ¬ 0 < AgreementCreationTime after)
  ∧ (∃ ret after,
       val made_crossed = (Some ret, None)
       ∧ RoundTrips ret
       ∧ val (FindSingleAgreementByAgreementId (store made_crossed) "x") = (Some after, None)
       ∧ Proposal after = ""
       ∧ Proposal after ≠ "P").
Proof.
  intros db proposal made made_at_0 crossed made_crossed. split; [|split].
  - exists (mkAgreement "agr-1" "proto-v1" 1500000000 1500000100 proposal "U" true),
           (mkAgreement "agr-1" "proto-v1" 1500000000 1500000100 Utf8Codec.RuneError "U" true).
    split; [vm_compute; reflexivity|]. split; [vm_compute; reflexivity|].
    split; [reflexivity|]. intros H. vm_compute in H. discriminate H.
  - exists (mkAgreement "agr-1" "proto-v1" 1500000000 0 "P" "U" true),
           (mkAgreement "agr-1" "proto-v1" 1500000000 0 "P" "U" true).
    split; [vm_compute; reflexivity|]. split; [vm_compute; reflexivity|].
    split; [reflexivity|]. simpl. lia.
  - exists (mkAgreement "x" "proto-v1" 5 1500000100 "P" "U" true),
           (mkAgreement "x" "proto-v1" 5 0 "" "" false).
    split; [vm_compute; reflexivity|]. split.
    { exists (default "" (Utf8Codec.marshal
                           (mkAgreement "x" "proto-v1" 5 1500000100 "P" "U" true))).
      split; vm_compute; reflexivity. }
    split; [vm_compute; reflexivity|]. split; [reflexivity|].
    intros H. vm_compute in H. discriminate H.
Qed.

End codec_and_clock.
